(** * VolumeLinker: the device catalog and the link controller

    A shallow embedding of [AudioDeviceManager] (the link controller), of
    [AudioDevice] (one catalog entry) and of the helpers they use, together
    with the properties of the natural-language specification that concern
    them.

    The controller talks to the Windows audio subsystem through COM calls
    whose outcome the program cannot predict.  The platform is therefore a
    component of the state ([World]): it answers every call with an
    [HRESULT], remembers the volume and mute state of every endpoint and the
    endpoints on which the controller's callback is registered, and keeps a
    trace of every call it has received.  Methods of the C++ classes are
    computations in a state-and-exception monad; as in C++, the changes a
    method has made to the object when it throws are kept. *)

From Stdlib Require Import String ZArith List Bool Lia Permutation Sorted.
From Stdlib Require Import QArith Qround Qpower.
From Stdlib Require Import Floats.SpecFloat.
Import ListNotations.
Open Scope Z_scope.

Set Implicit Arguments.

(** ** Windows base types *)

Definition GUID := Z.
Definition GUID_NULL : GUID := 0.

Definition HWND := Z.
Definition NULL : HWND := 0.

(** [BOOL] is an [int]; every nonzero value is true. *)
Definition BOOL := Z.
Definition TRUE : BOOL := 1.
Definition FALSE : BOOL := 0.

Definition HRESULT := Z.
Definition S_OK : HRESULT := 0.
Definition FAILED (hr : HRESULT) : bool := hr <? 0.

(** [float] is IEEE-754 binary32 and [double] binary64, both carried by the
    standard library's [spec_float]. *)
Definition float := spec_float.
Definition double := spec_float.

(** [wchar_t] is a 16-bit code unit; a [wstring] holds no terminator. *)
Definition wchar_t := Z.
Definition wstring := list wchar_t.

(** Window messages and their arguments (winuser.h, commctrl.h). *)
Definition WM_CLOSE : Z := 16.
Definition BM_SETCHECK : Z := 241.
Definition TBM_SETPOS : Z := 1029.
Definition BST_UNCHECKED : Z := 0.
Definition BST_CHECKED : Z := 1.

(** helpers.h *)
Definition MAX_VOL : Z := 100.

(** An [IMMDevice] is identified by its position in the platform's endpoint
    collection, and the [IAudioEndpointVolume] interface activated on it by
    the same number. *)
Definition IMMDevice := nat.
Definition IAudioEndpointVolume := nat.
Bind Scope nat_scope with IMMDevice IAudioEndpointVolume.

(** The target of a posted message: the dialog itself, or the control that
    [GetDlgItem] finds in it. *)
Inductive Window :=
| Dialog (hDlg : HWND)
| GetDlgItem (hDlg : HWND) (nIDDlgItem : Z).

(** ** The platform *)

Inductive Call :=
| CoCreateInstance
| EnumAudioEndpoints
| GetCount
| Item (i : nat)
| GetId (dev : IMMDevice)
| OpenPropertyStore (dev : IMMDevice)
| GetValue (dev : IMMDevice)
| Activate (dev : IMMDevice)
| RegisterControlChangeNotify (h : IAudioEndpointVolume)
| UnregisterControlChangeNotify (h : IAudioEndpointVolume)
| GetMute (h : IAudioEndpointVolume)
| GetMasterVolumeLevelScalar (h : IAudioEndpointVolume)
| SetMasterVolumeLevelScalar (h : IAudioEndpointVolume) (fLevel : float) (ctx : GUID)
| SetMute (h : IAudioEndpointVolume) (bMute : BOOL) (ctx : GUID)
| PostMessage (w : Window) (msg wParam lParam : Z)
| MessageBoxW (hDlg : HWND) (text caption : string).

(** An entry of the trace: the call, and (ghost state, never read by the
    program) the value [m_bLinkActive] had when the call was made; [false]
    for calls made while no controller exists yet. *)
Record Event := { ev_call : Call; ev_linkActive : bool }.

Record World := {
  w_hr : Call -> HRESULT;                (* the answer to each call *)
  w_endpoints : list (wstring * wstring);(* id and friendly name, in discovery order *)
  w_volume : IAudioEndpointVolume -> float;
  w_mute : IAudioEndpointVolume -> BOOL;
  w_subscribed : list IAudioEndpointVolume;
  w_trace : list Event                   (* oldest call first *)
}.

Definition update {A : Type} (f : nat -> A) (k : nat) (v : A) : nat -> A :=
  fun k' => if Nat.eqb k' k then v else f k'.

(** What a call does to the platform, given its answer.  Unregistering
    cannot fail on a live handle (the source ignores its result for that
    reason), so it always removes the subscription. *)
Definition effect (c : Call) (hr : HRESULT) (w : World) : World :=
  match c with
  | RegisterControlChangeNotify h =>
      if FAILED hr then w
      else {| w_hr := w_hr w; w_endpoints := w_endpoints w;
              w_volume := w_volume w; w_mute := w_mute w;
              w_subscribed := h :: w_subscribed w; w_trace := w_trace w |}
  | UnregisterControlChangeNotify h =>
      {| w_hr := w_hr w; w_endpoints := w_endpoints w;
         w_volume := w_volume w; w_mute := w_mute w;
         w_subscribed := filter (fun h' => negb (Nat.eqb h' h)) (w_subscribed w);
         w_trace := w_trace w |}
  | SetMasterVolumeLevelScalar h v _ =>
      if FAILED hr then w
      else {| w_hr := w_hr w; w_endpoints := w_endpoints w;
              w_volume := update (w_volume w) h v; w_mute := w_mute w;
              w_subscribed := w_subscribed w; w_trace := w_trace w |}
  | SetMute h b _ =>
      if FAILED hr then w
      else {| w_hr := w_hr w; w_endpoints := w_endpoints w;
              w_volume := w_volume w; w_mute := update (w_mute w) h b;
              w_subscribed := w_subscribed w; w_trace := w_trace w |}
  | _ => w
  end.

Definition log_event (e : Event) (w : World) : World :=
  {| w_hr := w_hr w; w_endpoints := w_endpoints w;
     w_volume := w_volume w; w_mute := w_mute w;
     w_subscribed := w_subscribed w; w_trace := w_trace w ++ [e] |}.

Definition answer (c : Call) (w : World) : HRESULT :=
  match c with
  | UnregisterControlChangeNotify _ => S_OK
  | _ => w_hr w c
  end.

Definition platform (c : Call) (linkActive : bool) (w : World) : HRESULT * World :=
  let hr := answer c w in
  (hr, effect c hr (log_event {| ev_call := c; ev_linkActive := linkActive |} w)).

(** ** Computations that may throw

    [std::runtime_error] carries its message.  The state a computation has
    reached when it throws is returned with the exception. *)

Inductive result (A : Type) :=
| Ok (a : A)
| Throw (what : string).
Arguments Ok {A} a.
Arguments Throw {A} what.

Definition M (S A : Type) := S -> result A * S.

Definition ret {S A : Type} (a : A) : M S A := fun s => (Ok a, s).

Definition bind {S A B : Type} (c : M S A) (k : A -> M S B) : M S B :=
  fun s => match c s with
           | (Ok a, s') => k a s'
           | (Throw what, s') => (Throw what, s')
           end.

Definition throw {S A : Type} (what : string) : M S A := fun s => (Throw what, s).

Declare Scope cpp_scope.
Delimit Scope cpp_scope with cpp.
Notation "x <- c ;; k" := (bind c (fun x => k))
  (at level 61, c at next level, right associativity) : cpp_scope.
Notation "c ;; k" := (bind c (fun _ => k))
  (at level 61, right associativity) : cpp_scope.
Open Scope cpp_scope.

(** THROW_IF_COM_FAILED (helpers.h) *)
Definition THROW_IF_COM_FAILED {S : Type} (hr : HRESULT) (msg : string) : M S unit :=
  if FAILED hr then throw msg else ret tt.

(** ** AudioDevice *)

Record AudioDevice := {
  m_iItemOffset : nat;
  m_pEndpoint : IMMDevice;
  m_wsId : wstring;
  m_wsName : wstring
}.

Definition getId_ (d : AudioDevice) : wstring := m_wsId d.
Definition getName (d : AudioDevice) : wstring := m_wsName d.

(** A platform call made while no controller exists. *)
Definition com (c : Call) : M World HRESULT :=
  fun w => let (hr, w') := platform c false w in (Ok hr, w').

Definition endpoint_strings (dev : IMMDevice) : M World (wstring * wstring) :=
  fun w => (Ok (nth dev (w_endpoints w) ([], [])), w).

(** AudioDevice::AudioDevice *)
Definition AudioDevice_new (itemOffset : nat) (pEndpoint : IMMDevice) : M World AudioDevice :=
  hr <- com (GetId pEndpoint) ;;
  THROW_IF_COM_FAILED hr "Unable to retrieve audio endpoint ID." ;;
  hr <- com (OpenPropertyStore pEndpoint) ;;
  THROW_IF_COM_FAILED hr "Unable to open device property storage." ;;
  hr <- com (GetValue pEndpoint) ;;
  THROW_IF_COM_FAILED hr "Unable to get name of audio endpoint." ;;
  strs <- endpoint_strings pEndpoint ;;
  ret {| m_iItemOffset := itemOffset; m_pEndpoint := pEndpoint;
         m_wsId := fst strs; m_wsName := snd strs |}.

(** ** AudioDeviceManager: the object

    The members [m_pEnumerator] and [m_pCollection] only live inside the
    constructor and are part of the platform here; the callback object
    [m_endpointVolumeCallback] forwards every notification to
    [_onVolumeCallback] from construction to destruction. *)

Record AudioDeviceManager := {
  m_exitCode : Z;
  m_processGUID : GUID;
  m_hDialog : HWND;
  m_iMuteCheckboxID : Z;
  m_iVolumeSliderID : Z;
  m_collectionCount : nat;
  m_audioDevices : list AudioDevice;
  m_bLinkActive : bool;
  m_iMasterDeviceIdx : Z;
  m_iSlaveDeviceIdx : Z;
  m_pMasterEndptVol : option IAudioEndpointVolume;   (* None is nullptr *)
  m_pSlaveEndptVol : option IAudioEndpointVolume
}.

Definition set_exitCode (v : Z) (m : AudioDeviceManager) : AudioDeviceManager :=
  {| m_exitCode := v; m_processGUID := m_processGUID m; m_hDialog := m_hDialog m;
     m_iMuteCheckboxID := m_iMuteCheckboxID m; m_iVolumeSliderID := m_iVolumeSliderID m;
     m_collectionCount := m_collectionCount m; m_audioDevices := m_audioDevices m;
     m_bLinkActive := m_bLinkActive m; m_iMasterDeviceIdx := m_iMasterDeviceIdx m;
     m_iSlaveDeviceIdx := m_iSlaveDeviceIdx m;
     m_pMasterEndptVol := m_pMasterEndptVol m; m_pSlaveEndptVol := m_pSlaveEndptVol m |}.

Definition set_dialog (hDlg : HWND) (mute slider : Z) (m : AudioDeviceManager)
  : AudioDeviceManager :=
  {| m_exitCode := m_exitCode m; m_processGUID := m_processGUID m; m_hDialog := hDlg;
     m_iMuteCheckboxID := mute; m_iVolumeSliderID := slider;
     m_collectionCount := m_collectionCount m; m_audioDevices := m_audioDevices m;
     m_bLinkActive := m_bLinkActive m; m_iMasterDeviceIdx := m_iMasterDeviceIdx m;
     m_iSlaveDeviceIdx := m_iSlaveDeviceIdx m;
     m_pMasterEndptVol := m_pMasterEndptVol m; m_pSlaveEndptVol := m_pSlaveEndptVol m |}.

Definition set_link (active : bool) (masterIdx slaveIdx : Z) (m : AudioDeviceManager)
  : AudioDeviceManager :=
  {| m_exitCode := m_exitCode m; m_processGUID := m_processGUID m; m_hDialog := m_hDialog m;
     m_iMuteCheckboxID := m_iMuteCheckboxID m; m_iVolumeSliderID := m_iVolumeSliderID m;
     m_collectionCount := m_collectionCount m; m_audioDevices := m_audioDevices m;
     m_bLinkActive := active; m_iMasterDeviceIdx := masterIdx;
     m_iSlaveDeviceIdx := slaveIdx;
     m_pMasterEndptVol := m_pMasterEndptVol m; m_pSlaveEndptVol := m_pSlaveEndptVol m |}.

Definition set_pMasterEndptVol (p : option IAudioEndpointVolume) (m : AudioDeviceManager)
  : AudioDeviceManager :=
  {| m_exitCode := m_exitCode m; m_processGUID := m_processGUID m; m_hDialog := m_hDialog m;
     m_iMuteCheckboxID := m_iMuteCheckboxID m; m_iVolumeSliderID := m_iVolumeSliderID m;
     m_collectionCount := m_collectionCount m; m_audioDevices := m_audioDevices m;
     m_bLinkActive := m_bLinkActive m; m_iMasterDeviceIdx := m_iMasterDeviceIdx m;
     m_iSlaveDeviceIdx := m_iSlaveDeviceIdx m;
     m_pMasterEndptVol := p; m_pSlaveEndptVol := m_pSlaveEndptVol m |}.

Definition set_pSlaveEndptVol (p : option IAudioEndpointVolume) (m : AudioDeviceManager)
  : AudioDeviceManager :=
  {| m_exitCode := m_exitCode m; m_processGUID := m_processGUID m; m_hDialog := m_hDialog m;
     m_iMuteCheckboxID := m_iMuteCheckboxID m; m_iVolumeSliderID := m_iVolumeSliderID m;
     m_collectionCount := m_collectionCount m; m_audioDevices := m_audioDevices m;
     m_bLinkActive := m_bLinkActive m; m_iMasterDeviceIdx := m_iMasterDeviceIdx m;
     m_iSlaveDeviceIdx := m_iSlaveDeviceIdx m;
     m_pMasterEndptVol := m_pMasterEndptVol m; m_pSlaveEndptVol := p |}.

(** The controller together with the platform it runs on. *)
Record Sys := { mgr : AudioDeviceManager; world : World }.

Definition this : M Sys AudioDeviceManager := fun s => (Ok (mgr s), s).

Definition assign (f : AudioDeviceManager -> AudioDeviceManager) : M Sys unit :=
  fun s => (Ok tt, {| mgr := f (mgr s); world := world s |}).

(** A platform call made by a method of the controller. *)
Definition call (c : Call) : M Sys HRESULT :=
  fun s => let (hr, w') := platform c (m_bLinkActive (mgr s)) (world s) in
           (Ok hr, {| mgr := mgr s; world := w' |}).

Definition peek {A : Type} (f : World -> A) : M Sys A :=
  fun s => (Ok (f (world s)), s).

(** AudioDevice::activateAudioEndpointVolume *)
Definition activateAudioEndpointVolume (d : AudioDevice) : M Sys IAudioEndpointVolume :=
  hr <- call (Activate (m_pEndpoint d)) ;;
  THROW_IF_COM_FAILED hr "Unable to open device endpoint volume control." ;;
  ret (m_pEndpoint d).

(** ** Floating point to slider position

    [_updateDialog] computes
    [static_cast<ptrdiff_t>((static_cast<double>(MAX_VOL) * fMasterVolume) + 0.5)]:
    the [float] operand is promoted to [double], product and sum are rounded
    to binary64 (round to nearest, ties to even), and the cast truncates
    towards zero. *)

Definition SFmul64 : double -> double -> double := SFmul 53 1024.
Definition SFadd64 : double -> double -> double := SFadd 53 1024.

(** [static_cast<double>] of an integer constant, and of a [float] (exact). *)
Definition double_of_int (z : Z) : double := binary_normalize 53 1024 z 0 false.

Definition double_of_float (f : float) : double :=
  match f with
  | S754_finite s m e => binary_round 53 1024 s m e
  | _ => f
  end.

(** The literal [0.5]. *)
Definition double_half : double := binary_normalize 53 1024 1 (-1) false.

Definition PTRDIFF_MIN : Z := - 2 ^ 63.
Definition PTRDIFF_MAX : Z := 2 ^ 63 - 1.

(** [static_cast<ptrdiff_t>] of a [double] on the 64-bit target: truncation
    towards zero.  For a NaN, an infinity or a value that does not fit, C++
    leaves the result undefined; the conversion instruction of the target
    then yields [PTRDIFF_MIN], which is what is modelled. *)
Definition ptrdiff_of_double (d : double) : Z :=
  match d with
  | S754_zero _ => 0
  | S754_finite s m e =>
      let z := cond_Zopp s (Z.shiftl (Zpos m) e) in
      if (PTRDIFF_MIN <=? z) && (z <=? PTRDIFF_MAX) then z else PTRDIFF_MIN
  | _ => PTRDIFF_MIN
  end.

(** Lines 250-253 of the source: the slider position for a volume. *)
Definition sliderVolume (fMasterVolume : float) : Z :=
  let sliderVolume :=
    ptrdiff_of_double
      (SFadd64 (SFmul64 (double_of_int MAX_VOL) (double_of_float fMasterVolume))
               double_half) in
  if sliderVolume <? 0 then 0
  else if sliderVolume >? MAX_VOL then MAX_VOL
  else sliderVolume.

(** [static_cast<int>] of a [ptrdiff_t], and [static_cast<UINT32>]. *)
Definition int_of_ptrdiff (z : Z) : Z := (z + 2 ^ 31) mod 2 ^ 32 - 2 ^ 31.
Definition UINT32_of_ptrdiff (z : Z) : Z := z mod 2 ^ 32.

(** ** AudioDeviceManager: the methods *)

Definition getExitCode (m : AudioDeviceManager) : Z := m_exitCode m.
Definition getAudioDevices (m : AudioDeviceManager) : list AudioDevice := m_audioDevices m.
Definition isLinkActive (m : AudioDeviceManager) : bool := m_bLinkActive m.
Definition getMasterDeviceIdx (m : AudioDeviceManager) : Z := m_iMasterDeviceIdx m.
Definition getSlaveDeviceIdx (m : AudioDeviceManager) : Z := m_iSlaveDeviceIdx m.

(** AudioDeviceManager::getDevice.  [vector::at] throws [out_of_range]
    beyond the last element, which the method turns into its own error. *)
Definition getDevice (idx : Z) : M Sys AudioDevice :=
  if idx <? 0 then throw "Negative device number requested."
  else
    m <- this ;;
    match nth_error (m_audioDevices m) (Z.to_nat idx) with
    | Some d => ret d
    | None => throw "Invalid device number requested."
    end.

(** AudioDeviceManager::unlinkDevices (noexcept) *)
Definition unlinkDevices : M Sys unit :=
  m <- this ;;
  match m_bLinkActive m, m_pMasterEndptVol m with
  | true, Some h => _ <- call (UnregisterControlChangeNotify h) ;; ret tt
  | _, _ => ret tt
  end ;;
  assign (set_link false (-1) (-1)) ;;
  assign (set_pMasterEndptVol None) ;;
  assign (set_pSlaveEndptVol None).

(** AudioDeviceManager::setDialog *)
Definition setDialog (hDlg : HWND) (muteCheckboxID volumeSliderID : Z) : M Sys unit :=
  assign (set_dialog hDlg muteCheckboxID volumeSliderID).

(** AudioDeviceManager::_updateDialog *)
Definition _updateDialog (fMasterVolume : float) (bMuted : BOOL) : M Sys unit :=
  m <- this ;;
  if m_hDialog m =? NULL then ret tt
  else
    _ <- call (PostMessage (GetDlgItem (m_hDialog m) (int_of_ptrdiff (m_iMuteCheckboxID m)))
                 BM_SETCHECK (if bMuted =? 0 then BST_UNCHECKED else BST_CHECKED) 0) ;;
    _ <- call (PostMessage (GetDlgItem (m_hDialog m) (int_of_ptrdiff (m_iVolumeSliderID m)))
                 TBM_SETPOS TRUE (UINT32_of_ptrdiff (sliderVolume fMasterVolume))) ;;
    ret tt.

(** AudioDeviceManager::setMasterVolume (noexcept) *)
Definition setMasterVolume (fVolume : float) : M Sys bool :=
  m <- this ;;
  match m_pMasterEndptVol m with
  | None => ret true
  | Some h =>
      hr <- call (SetMasterVolumeLevelScalar h fVolume (m_processGUID m)) ;;
      if FAILED hr then ret false else ret true
  end.

(** AudioDeviceManager::setMasterMute (noexcept) *)
Definition setMasterMute (bMuted : BOOL) : M Sys bool :=
  m <- this ;;
  match m_pMasterEndptVol m with
  | None => ret true
  | Some h =>
      hr <- call (SetMute h bMuted (m_processGUID m)) ;;
      if FAILED hr then ret false else ret true
  end.

(** AudioDeviceManager::_setSlaveVolume (noexcept) *)
Definition _setSlaveVolume (fVolume : float) (bMuted : BOOL) : M Sys bool :=
  m <- this ;;
  match m_pSlaveEndptVol m with
  | None => ret true
  | Some h =>
      hr <- call (SetMasterVolumeLevelScalar h fVolume (m_processGUID m)) ;;
      if FAILED hr then ret false
      else
        hr <- call (SetMute h bMuted (m_processGUID m)) ;;
        if FAILED hr then ret false else ret true
  end.

(** AudioDeviceManager::linkDevices *)
Definition linkDevices (masterIdx slaveIdx : Z) : M Sys unit :=
  unlinkDevices ;;
  (if masterIdx =? slaveIdx then throw "Cannot link device to itself." else ret tt) ;;
  masterDevice <- getDevice masterIdx ;;
  slaveDevice <- getDevice slaveIdx ;;
  pMaster <- activateAudioEndpointVolume masterDevice ;;
  assign (set_pMasterEndptVol (Some pMaster)) ;;
  pSlave <- activateAudioEndpointVolume slaveDevice ;;
  assign (set_pSlaveEndptVol (Some pSlave)) ;;
  hr <- call (RegisterControlChangeNotify pMaster) ;;
  THROW_IF_COM_FAILED hr "Unable to register master audio endpoint volume callback." ;;
  assign (set_link true masterIdx slaveIdx) ;;
  hr <- call (GetMute pMaster) ;;
  bMuted <- peek (fun w => w_mute w pMaster) ;;
  if FAILED hr then
    unlinkDevices ;;
    throw "Failed to retrieve master device's volume state. Link could not be established."
  else
    hr <- call (GetMasterVolumeLevelScalar pMaster) ;;
    fMasterVolume <- peek (fun w => w_volume w pMaster) ;;
    if FAILED hr then
      unlinkDevices ;;
      throw "Failed to retrieve master device's mute state. Link could not be established."
    else
      success <- _setSlaveVolume fMasterVolume bMuted ;;
      if negb success then
        unlinkDevices ;;
        throw "Failed to sync master volume to slave device. Link could not be established."
      else
        _updateDialog fMasterVolume bMuted.

(** AUDIO_VOLUME_NOTIFICATION_DATA, the fields the controller reads. *)
Record AUDIO_VOLUME_NOTIFICATION_DATA := {
  guidEventContext : GUID;
  bMuted : BOOL;
  fMasterVolume : float
}.

(** AudioDeviceManager::_onVolumeCallback *)
Definition _onVolumeCallback (pNotify : AUDIO_VOLUME_NOTIFICATION_DATA) : M Sys unit :=
  m <- this ;;
  match m_bLinkActive m, m_pMasterEndptVol m, m_pSlaveEndptVol m with
  | true, Some _, Some _ =>
      (if negb (guidEventContext pNotify =? m_processGUID m)
       then _updateDialog (fMasterVolume pNotify) (bMuted pNotify)
       else ret tt) ;;
      success <- _setSlaveVolume (fMasterVolume pNotify) (bMuted pNotify) ;;
      if negb success && negb (m_hDialog m =? NULL) then
        assign (set_exitCode 1) ;;
        _ <- call (MessageBoxW (m_hDialog m)
                     "Failed to sync master volume to slave device in callback. The program will now exit."
                     "Fatal Error") ;;
        _ <- call (PostMessage (Dialog (m_hDialog m)) WM_CLOSE 0 0) ;;
        ret tt
      else ret tt
  | _, _, _ => ret tt
  end.

(** ** Enumeration: the constructor of the controller

    Two library routines are not part of the program.  [towlower] is the C
    runtime's case mapping in the locale that [_wsetlocale] selected.
    [std_sort] is [std::sort]: the C++ standard fixes what it returns for a
    comparator that is a strict weak ordering, but not the algorithm. *)

Section Enumeration.

Variable towlower : wchar_t -> wchar_t.
Variable std_sort :
  (AudioDevice -> AudioDevice -> bool) -> list AudioDevice -> list AudioDevice.

(** [_wcsicmp] of the Microsoft C runtime: both strings are read one code
    unit at a time, each unit is mapped to lower case, and the loop runs
    [while (f && f == l)]; the result is [f - l].  The end of a list is
    the terminating zero. *)
Fixpoint _wcsicmp (string1 string2 : wstring) : Z :=
  match string1 with
  | [] => towlower 0 - towlower (hd 0 string2)
  | c :: rest =>
      let f := towlower c in
      let l := towlower (hd 0 string2) in
      if negb (f =? 0) && (f =? l) then _wcsicmp rest (tl string2) else f - l
  end.

(** The comparator passed to [std::sort]. *)
Definition name_less (a b : AudioDevice) : bool :=
  _wcsicmp (getName a) (getName b) <? 0.

(** The loop over the collection, lines 65-74. *)
Fixpoint collect (indices : list nat) (devices : list AudioDevice)
  : M World (list AudioDevice) :=
  match indices with
  | [] => ret devices
  | i :: indices' =>
      hr <- com (Item i) ;;
      THROW_IF_COM_FAILED hr "Unable to retrieve an audio endpoint." ;;
      device <- AudioDevice_new i i ;;
      collect indices' (devices ++ [device])
  end.

(** AudioDeviceManager::AudioDeviceManager *)
Definition AudioDeviceManager_new (processGUID : GUID) : M World AudioDeviceManager :=
  (if processGUID =? GUID_NULL
   then throw "Invalid process GUID given to AudioDeviceManager."
   else ret tt) ;;
  hr <- com CoCreateInstance ;;
  THROW_IF_COM_FAILED hr "Unable to create audio device enumerator." ;;
  hr <- com EnumAudioEndpoints ;;
  THROW_IF_COM_FAILED hr "Unable to enumerate audio devices." ;;
  hr <- com GetCount ;;
  count <- (fun w => (Ok (length (w_endpoints w)), w)) ;;
  THROW_IF_COM_FAILED hr "Unable to count audio devices in collection." ;;
  (if Nat.eqb count 0 then throw "No audio devices found." else ret tt) ;;
  devices <- collect (seq 0 count) [] ;;
  let sorted := std_sort name_less devices in
  (if negb (Nat.eqb count (length sorted))
   then throw "Unable to retrieve all audio device information."
   else ret tt) ;;
  ret {| m_exitCode := 0; m_processGUID := processGUID;
         m_hDialog := NULL; m_iMuteCheckboxID := 0; m_iVolumeSliderID := 0;
         m_collectionCount := count; m_audioDevices := sorted;
         m_bLinkActive := false;
         m_iMasterDeviceIdx := -1; m_iSlaveDeviceIdx := -1;
         m_pMasterEndptVol := None; m_pSlaveEndptVol := None |}.

End Enumeration.

(** [towlower] in the "C" locale: only the letters A to Z change. *)
Definition towlower_C (c : wchar_t) : wchar_t :=
  if (65 <=? c) && (c <=? 90) then c + 32 else c.

(** A stable insertion sort: every element, in discovery order, is placed
    before the first element that is greater than it, so behind the ones
    that compare equal to it.  It keeps the contract of [std::sort], and
    for the short catalogs of the examples it returns what the library
    routine below returns. *)
Fixpoint insert_before (less : AudioDevice -> AudioDevice -> bool)
  (x : AudioDevice) (l : list AudioDevice) : list AudioDevice :=
  match l with
  | [] => [x]
  | y :: l' => if less x y then x :: l else y :: insert_before less x l'
  end.

Definition insertion_sort (less : AudioDevice -> AudioDevice -> bool)
  (l : list AudioDevice) : list AudioDevice :=
  fold_left (fun acc x => insert_before less x acc) l [].

(** ** [std::sort] of the GNU C++ library

    The routine as libstdc++ 12 implements it (bits/stl_algo.h and
    bits/stl_heap.h): an introsort.  Ranges of more than 16 elements are
    partitioned around the median of three elements, a range on which the
    depth limit is used up is sorted as a heap, and a last pass of insertion
    sort finishes the job.  The vector is a list, an iterator is an index
    into it ([ptrdiff_t], so a [Z]).  Every loop of the source is a
    recursion on a counter that starts at a bound of the number of its
    iterations (the length of the vector, or the distance left to the start
    of the range); for a comparator that is a strict weak ordering no loop
    of the source reads outside the range, and the counter never runs out
    first. *)

Module libstdcxx.

Section Sort.

Variable A : Type.
Variable comp : A -> A -> bool.

(** What a read outside the vector gives; the source never makes one. *)
Variable d : A.

Definition at_ (a : list A) (i : Z) : A := nth (Z.to_nat i) a d.

(** [*i = v] *)
Definition put (a : list A) (i : Z) (v : A) : list A :=
  firstn (Z.to_nat i) a ++ v :: skipn (S (Z.to_nat i)) a.

Definition iter_swap (a : list A) (i j : Z) : list A :=
  put (put a i (at_ a j)) j (at_ a i).

Definition __move_median_to_first (a : list A) (result a_ b c : Z) : list A :=
  if comp (at_ a a_) (at_ a b) then
    if comp (at_ a b) (at_ a c) then iter_swap a result b
    else if comp (at_ a a_) (at_ a c) then iter_swap a result c
    else iter_swap a result a_
  else if comp (at_ a a_) (at_ a c) then iter_swap a result a_
  else if comp (at_ a b) (at_ a c) then iter_swap a result c
  else iter_swap a result b.

(** The loop of [__unguarded_linear_insert]. *)
Fixpoint linear_insert_loop (fuel : nat) (a : list A) (val : A) (last next : Z) : list A :=
  match fuel with
  | O => put a last val
  | S fuel' =>
      if comp val (at_ a next)
      then linear_insert_loop fuel' (put a last (at_ a next)) val next (next - 1)
      else put a last val
  end.

Definition __unguarded_linear_insert (a : list A) (last : Z) : list A :=
  linear_insert_loop (Z.to_nat last) a (at_ a last) last (last - 1).

(** [val = *i; move_backward(first, i, i + 1); *first = val] *)
Definition move_backward_insert (a : list A) (first i : Z) : list A :=
  firstn (Z.to_nat first) a ++
  at_ a i :: firstn (Z.to_nat (i - first)) (skipn (Z.to_nat first) a) ++
  skipn (S (Z.to_nat i)) a.

Definition __insertion_sort (a : list A) (first last : Z) : list A :=
  if first =? last then a
  else
    fold_left
      (fun a i =>
         if comp (at_ a i) (at_ a first) then move_backward_insert a first i
         else __unguarded_linear_insert a i)
      (map Z.of_nat (seq (Z.to_nat (first + 1)) (Z.to_nat (last - (first + 1))))) a.

Definition __unguarded_insertion_sort (a : list A) (first last : Z) : list A :=
  fold_left (fun a i => __unguarded_linear_insert a i)
    (map Z.of_nat (seq (Z.to_nat first) (Z.to_nat (last - first)))) a.

Definition _S_threshold : Z := 16.

Definition __final_insertion_sort (a : list A) (first last : Z) : list A :=
  if last - first >? _S_threshold then
    __unguarded_insertion_sort
      (__insertion_sort a first (first + _S_threshold)) (first + _S_threshold) last
  else __insertion_sort a first last.

(** The two inner loops of [__unguarded_partition]. *)
Fixpoint scan_up (fuel : nat) (a : list A) (first pivot : Z) : Z :=
  match fuel with
  | O => first
  | S fuel' => if comp (at_ a first) (at_ a pivot) then scan_up fuel' a (first + 1) pivot
               else first
  end.

Fixpoint scan_down (fuel : nat) (a : list A) (pivot last : Z) : Z :=
  match fuel with
  | O => last
  | S fuel' => if comp (at_ a pivot) (at_ a last) then scan_down fuel' a pivot (last - 1)
               else last
  end.

Fixpoint partition_loop (fuel : nat) (a : list A) (first last pivot : Z) : list A * Z :=
  match fuel with
  | O => (a, first)
  | S fuel' =>
      let first := scan_up (length a) a first pivot in
      let last := last - 1 in
      let last := scan_down (length a) a pivot last in
      if negb (first <? last) then (a, first)
      else partition_loop fuel' (iter_swap a first last) (first + 1) last pivot
  end.

Definition __unguarded_partition (a : list A) (first last pivot : Z) : list A * Z :=
  partition_loop (length a) a first last pivot.

Definition __unguarded_partition_pivot (a : list A) (first last : Z) : list A * Z :=
  let mid := first + Z.quot (last - first) 2 in
  let a := __move_median_to_first a first (first + 1) mid (last - 1) in
  __unguarded_partition a (first + 1) last first.

(** bits/stl_heap.h *)
Fixpoint push_heap_loop (fuel : nat) (a : list A) (first holeIndex topIndex : Z) (value : A)
  : list A :=
  let parent := Z.quot (holeIndex - 1) 2 in
  match fuel with
  | O => put a (first + holeIndex) value
  | S fuel' =>
      if (holeIndex >? topIndex) && comp (at_ a (first + parent)) value
      then push_heap_loop fuel' (put a (first + holeIndex) (at_ a (first + parent)))
             first parent topIndex value
      else put a (first + holeIndex) value
  end.

Definition __push_heap (a : list A) (first holeIndex topIndex : Z) (value : A) : list A :=
  push_heap_loop (length a) a first holeIndex topIndex value.

Fixpoint adjust_heap_loop (fuel : nat) (a : list A) (first holeIndex secondChild len : Z)
  : list A * Z * Z :=
  match fuel with
  | O => (a, holeIndex, secondChild)
  | S fuel' =>
      if secondChild <? Z.quot (len - 1) 2 then
        let secondChild := 2 * (secondChild + 1) in
        let secondChild :=
          if comp (at_ a (first + secondChild)) (at_ a (first + (secondChild - 1)))
          then secondChild - 1 else secondChild in
        adjust_heap_loop fuel' (put a (first + holeIndex) (at_ a (first + secondChild)))
          first secondChild secondChild len
      else (a, holeIndex, secondChild)
  end.

Definition __adjust_heap (a : list A) (first holeIndex len : Z) (value : A) : list A :=
  let topIndex := holeIndex in
  let '(a, holeIndex, secondChild) :=
    adjust_heap_loop (length a) a first holeIndex holeIndex len in
  let '(a, holeIndex) :=
    if (Z.land len 1 =? 0) && (secondChild =? Z.quot (len - 2) 2) then
      let secondChild := 2 * (secondChild + 1) in
      (put a (first + holeIndex) (at_ a (first + (secondChild - 1))), secondChild - 1)
    else (a, holeIndex) in
  __push_heap a first holeIndex topIndex value.

Definition __pop_heap (a : list A) (first last result : Z) : list A :=
  let value := at_ a result in
  let a := put a result (at_ a first) in
  __adjust_heap a first 0 (last - first) value.

Fixpoint make_heap_loop (fuel : nat) (a : list A) (first len parent : Z) : list A :=
  match fuel with
  | O => a
  | S fuel' =>
      let value := at_ a (first + parent) in
      let a := __adjust_heap a first parent len value in
      if parent =? 0 then a else make_heap_loop fuel' a first len (parent - 1)
  end.

Definition __make_heap (a : list A) (first last : Z) : list A :=
  if last - first <? 2 then a
  else
    let len := last - first in
    make_heap_loop (length a) a first len (Z.quot (len - 2) 2).

Fixpoint sort_heap_loop (fuel : nat) (a : list A) (first last : Z) : list A :=
  match fuel with
  | O => a
  | S fuel' =>
      if last - first >? 1 then
        let last := last - 1 in
        sort_heap_loop fuel' (__pop_heap a first last last) first last
      else a
  end.

Definition __sort_heap (a : list A) (first last : Z) : list A :=
  sort_heap_loop (length a) a first last.

Definition __heap_select (a : list A) (first middle last : Z) : list A :=
  let a := __make_heap a first middle in
  fold_left
    (fun a i => if comp (at_ a i) (at_ a first) then __pop_heap a first middle i else a)
    (map Z.of_nat (seq (Z.to_nat middle) (Z.to_nat (last - middle)))) a.

Definition __partial_sort (a : list A) (first middle last : Z) : list A :=
  __sort_heap (__heap_select a first middle last) first middle.

(** The loop of [__introsort_loop] takes one from the depth limit in each
    iteration and leaves when none is left, as the recursive call does. *)
Fixpoint __introsort_loop (a : list A) (first last : Z) (depth_limit : nat) : list A :=
  if last - first >? _S_threshold then
    match depth_limit with
    | O => __partial_sort a first last last
    | S depth_limit =>
        let '(a, cut) := __unguarded_partition_pivot a first last in
        let a := __introsort_loop a cut last depth_limit in
        __introsort_loop a first cut depth_limit
    end
  else a.

(** The position of the highest bit that is set. *)
Definition __lg (n : Z) : Z := Z.log2 n.

Definition __sort (a : list A) (first last : Z) : list A :=
  if negb (first =? last) then
    __final_insertion_sort
      (__introsort_loop a first last (Z.to_nat (__lg (last - first) * 2))) first last
  else a.

End Sort.

(** [std::sort(v.begin(), v.end(), comp)] *)
Definition sort (A : Type) (comp : A -> A -> bool) (v : list A) : list A :=
  match v with
  | [] => []
  | d :: _ => @__sort A comp d v 0 (Z.of_nat (length v))
  end.

End libstdcxx.

(** ** What the properties speak about *)

(** The controller is Unlinked: flag down, indices "none", handles released. *)
Definition Unlinked (m : AudioDeviceManager) : Prop :=
  m_bLinkActive m = false /\
  m_iMasterDeviceIdx m = -1 /\ m_iSlaveDeviceIdx m = -1 /\
  m_pMasterEndptVol m = None /\ m_pSlaveEndptVol m = None.

(** The controller is Linked on the handles [hm] and [hs]. *)
Definition Linked (m : AudioDeviceManager) (hm hs : IAudioEndpointVolume) : Prop :=
  m_bLinkActive m = true /\
  m_pMasterEndptVol m = Some hm /\ m_pSlaveEndptVol m = Some hs.

(** The trace entries, and the calls, a computation adds when run from [s]. *)
Definition new_events {A : Type} (c : M Sys A) (s : Sys) : list Event :=
  skipn (length (w_trace (world s))) (w_trace (world (snd (c s)))).

Definition new_calls {A : Type} (c : M Sys A) (s : Sys) : list Call :=
  map ev_call (new_events c s).

(** [n] calls of a method in a row. *)
Fixpoint times (n : nat) (c : M Sys unit) : M Sys unit :=
  match n with
  | O => ret tt
  | S n' => c ;; times n' c
  end.

(** Writes to the handle [h]. *)
Definition writes_handle (h : IAudioEndpointVolume) (c : Call) : bool :=
  match c with
  | SetMasterVolumeLevelScalar h' _ _ => Nat.eqb h' h
  | SetMute h' _ _ => Nat.eqb h' h
  | _ => false
  end.

(** Messages to a control of the dialog: the update of the observer. *)
Definition dialog_update (c : Call) : bool :=
  match c with
  | PostMessage (GetDlgItem _ _) _ _ _ => true
  | _ => false
  end.

(** The report of a fatal error: the message box and the request to close. *)
Definition fatal_report (c : Call) : bool :=
  match c with
  | MessageBoxW _ _ _ => true
  | PostMessage (Dialog _) _ _ _ => true
  | _ => false
  end.

(** The relay of a notification to the slave fails: [_setSlaveVolume]
    returns [false]. *)
Definition relay_fails (pNotify : AUDIO_VOLUME_NOTIFICATION_DATA) (s : Sys) : Prop :=
  fst (_setSlaveVolume (fMasterVolume pNotify) (bMuted pNotify) s) = Ok false.

(** ** Concrete controllers and platforms, for the examples *)

(** A literal of ASCII characters as a wide string. *)
Fixpoint L (s : string) : wstring :=
  match s with
  | EmptyString => []
  | String c s' => Z.of_nat (Ascii.nat_of_ascii c) :: L s'
  end.

(** [0.42f], [0.505f] (the binary32 value nearest to 0.505, which lies below
    it), the next binary32 value above it, and [1.0f]. *)
Definition f_0_42 : float := S754_finite false 14092861 (-25).
Definition f_0_505 : float := S754_finite false 8472494 (-24).
Definition f_0_505_succ : float := S754_finite false 8472495 (-24).
Definition f_0_5 : float := S754_finite false 8388608 (-24).
Definition f_1_0 : float := S754_finite false 8388608 (-23).
Definition f_0_0 : float := S754_zero false.

Definition E_FAIL : HRESULT := -2147467259.

(** A platform with three endpoints on which every call succeeds. *)
Definition world_ok : World :=
  {| w_hr := fun _ => S_OK;
     w_endpoints := [(L "{0}", L "Speakers"); (L "{1}", L "speakers");
                     (L "{2}", L "Headphones")];
     w_volume := fun _ => f_0_5;
     w_mute := fun _ => FALSE;
     w_subscribed := [];
     w_trace := [] |}.

(** The same platform with one call that fails. *)
Definition world_failing (bad : Call -> bool) : World :=
  {| w_hr := fun c => if bad c then E_FAIL else S_OK;
     w_endpoints := w_endpoints world_ok;
     w_volume := w_volume world_ok;
     w_mute := w_mute world_ok;
     w_subscribed := [];
     w_trace := [] |}.


Definition is_register (c : Call) : bool :=
  match c with RegisterControlChangeNotify _ => true | _ => false end.

Definition is_set_volume (c : Call) : bool :=
  match c with SetMasterVolumeLevelScalar _ _ _ => true | _ => false end.

Definition catalog3 : list AudioDevice :=
  [ {| m_iItemOffset := 2; m_pEndpoint := 2; m_wsId := L "{2}"; m_wsName := L "Headphones" |};
    {| m_iItemOffset := 0; m_pEndpoint := 0; m_wsId := L "{0}"; m_wsName := L "Speakers" |};
    {| m_iItemOffset := 1; m_pEndpoint := 1; m_wsId := L "{1}"; m_wsName := L "speakers" |} ].

(** A controller as the constructor leaves it, with or without a dialog. *)
Definition manager_fresh (hDlg : HWND) : AudioDeviceManager :=
  {| m_exitCode := 0; m_processGUID := 7;
     m_hDialog := hDlg; m_iMuteCheckboxID := 1001; m_iVolumeSliderID := 1002;
     m_collectionCount := 3%nat; m_audioDevices := catalog3;
     m_bLinkActive := false; m_iMasterDeviceIdx := -1; m_iSlaveDeviceIdx := -1;
     m_pMasterEndptVol := None; m_pSlaveEndptVol := None |}.

(** A controller linked from catalog position 1 to catalog position 0. *)
Definition manager_linked (hDlg : HWND) : AudioDeviceManager :=
  {| m_exitCode := 0; m_processGUID := 7;
     m_hDialog := hDlg; m_iMuteCheckboxID := 1001; m_iVolumeSliderID := 1002;
     m_collectionCount := 3%nat; m_audioDevices := catalog3;
     m_bLinkActive := true; m_iMasterDeviceIdx := 1; m_iSlaveDeviceIdx := 0;
     m_pMasterEndptVol := Some 0%nat; m_pSlaveEndptVol := Some 2%nat |}.

(** A change of the master made by another program, and one made by the
    controller itself. *)
Definition notify_external : AUDIO_VOLUME_NOTIFICATION_DATA :=
  {| guidEventContext := 9; bMuted := FALSE; fMasterVolume := f_0_42 |}.

Definition notify_own : AUDIO_VOLUME_NOTIFICATION_DATA :=
  {| guidEventContext := 7; bMuted := FALSE; fMasterVolume := f_0_42 |}.

Definition sys_linked (hDlg : HWND) (w : World) : Sys :=
  {| mgr := manager_linked hDlg; world := w |}.

Definition sys_fresh (hDlg : HWND) (w : World) : Sys :=
  {| mgr := manager_fresh hDlg; world := w |}.

(** The calls [linkDevices] makes before it marks the link active: opening
    the two handles and registering the callback. *)
Definition setup_call (c : Call) : bool :=
  match c with
  | Activate _ | RegisterControlChangeNotify _ => true
  | _ => false
  end.

(** ** The catalog and the contract of [std::sort] *)

(** A comparator is a strict weak ordering, as the C++ standard words it:
    irreflexive, transitive, and with a transitive equivalence
    [!less(a, b) && !less(b, a)]. *)
Definition strict_weak_order (less : AudioDevice -> AudioDevice -> bool) : Prop :=
  (forall a, less a a = false) /\
  (forall a b c, less a b = true -> less b c = true -> less a c = true) /\
  (forall a b c,
      less a b = false -> less b a = false ->
      less b c = false -> less c b = false ->
      less a c = false /\ less c a = false).

(** A range is sorted with respect to [less] when no element is less than
    one that precedes it. *)
Definition sorted_by (less : AudioDevice -> AudioDevice -> bool)
  (l : list AudioDevice) : Prop :=
  StronglySorted (fun a b => less b a = false) l.

(** What the standard promises of [std::sort]. *)
Definition sorts
  (sort : (AudioDevice -> AudioDevice -> bool) -> list AudioDevice -> list AudioDevice)
  : Prop :=
  forall less l,
    strict_weak_order less ->
    Permutation l (sort less l) /\ sorted_by less (sort less l).

(** The devices of the platform in discovery order, as the loop of the
    constructor builds them. *)
Definition discovered (w : World) : list AudioDevice :=
  map (fun i => {| m_iItemOffset := i; m_pEndpoint := i;
                   m_wsId := fst (nth i (w_endpoints w) ([], []));
                   m_wsName := snd (nth i (w_endpoints w) ([], [])) |})
      (seq 0 (length (w_endpoints w))).



(** ** The exact value of a float *)

(** Neither a NaN nor an infinity. *)
Definition is_finite (f : float) : bool :=
  match f with
  | S754_zero _ | S754_finite _ _ _ => true
  | _ => false
  end.

(** The rational number a finite float stands for. *)
Definition float_value (f : float) : Q :=
  match f with
  | S754_finite s m e => (if s then -1 else 1) * inject_Z (Zpos m) * 2 ^ e
  | _ => 0
  end.

(** Rounding to the nearest integer, halves up. *)
Definition round_half_up (q : Q) : Z := Qfloor (q + (1 # 2)).

(** ** More of the program: what the further properties speak about *)

(** The calls the constructor makes on one endpoint all succeed. *)
Definition endpoint_ok (w : World) (i : nat) : bool :=
  negb (FAILED (w_hr w (Item i))) &&
  negb (FAILED (w_hr w (GetId i))) &&
  negb (FAILED (w_hr w (OpenPropertyStore i))) &&
  negb (FAILED (w_hr w (GetValue i))).

(** Every call of the enumeration succeeds. *)
Definition enumeration_ok (w : World) : bool :=
  negb (FAILED (w_hr w CoCreateInstance)) &&
  negb (FAILED (w_hr w EnumAudioEndpoints)) &&
  negb (FAILED (w_hr w GetCount)) &&
  forallb (endpoint_ok w) (seq 0 (length (w_endpoints w))).

(** The calls of a successful enumeration of [n] endpoints, in order. *)
Definition enumeration_calls (n : nat) : list Call :=
  [CoCreateInstance; EnumAudioEndpoints; GetCount] ++
  flat_map (fun i => [Item i; GetId i; OpenPropertyStore i; GetValue i]) (seq 0 n).

(** The platform [w'] is [w] after the calls [cs], made while no controller
    exists, none of which has changed anything but the trace. *)
Definition only_logged (cs : list Call) (w w' : World) : Prop :=
  w_hr w' = w_hr w /\ w_endpoints w' = w_endpoints w /\
  w_volume w' = w_volume w /\ w_mute w' = w_mute w /\
  w_subscribed w' = w_subscribed w /\
  w_trace w' =
    w_trace w ++ map (fun c => {| ev_call := c; ev_linkActive := false |}) cs.

Definition is_Ok {A : Type} (r : result A) : bool :=
  match r with Ok _ => true | Throw _ => false end.

(** *** AudioEndpointVolumeCallback (AudioEndpointVolumeCallback.h) *)

(** Interface identifiers (unknwn.h, endpointvolume.h) and error codes
    (winerror.h). *)
Definition IID_IUnknown : GUID := 0xC000000000000046.
Definition IID_IAudioEndpointVolumeCallback : GUID := 0x657804FAD6AD44968A60352752AF4F89.
Definition E_NOINTERFACE : HRESULT := -2147467262.
Definition E_INVALIDARG : HRESULT := -2147024809.

(** [LONG] is a 32-bit signed integer; the interlocked operations wrap. *)
Definition LONG_wrap (z : Z) : Z := (z + 2 ^ 31) mod 2 ^ 32 - 2 ^ 31.
Definition ULONG_of_LONG (z : Z) : Z := z mod 2 ^ 32.

Record AudioEndpointVolumeCallback := {
  m_references : Z;
  m_externalCallback : option (AUDIO_VOLUME_NOTIFICATION_DATA -> M Sys unit)
}.

(** The object as its constructor leaves it. *)
Definition AudioEndpointVolumeCallback_new : AudioEndpointVolumeCallback :=
  {| m_references := 1; m_externalCallback := None |}.

Definition registerCallback (callback : AUDIO_VOLUME_NOTIFICATION_DATA -> M Sys unit)
  (o : AudioEndpointVolumeCallback) : AudioEndpointVolumeCallback :=
  {| m_references := m_references o; m_externalCallback := Some callback |}.

Definition unregisterCallback (o : AudioEndpointVolumeCallback)
  : AudioEndpointVolumeCallback :=
  {| m_references := m_references o; m_externalCallback := None |}.

(** AddRef: the new count, and the object. *)
Definition AddRef (o : AudioEndpointVolumeCallback) : Z * AudioEndpointVolumeCallback :=
  let r := LONG_wrap (m_references o + 1) in
  (ULONG_of_LONG r,
   {| m_references := r; m_externalCallback := m_externalCallback o |}).

(** Release: the new count, and the object unless [delete this] has run. *)
Definition Release (o : AudioEndpointVolumeCallback)
  : Z * option AudioEndpointVolumeCallback :=
  let r := LONG_wrap (m_references o - 1) in
  let refCount := ULONG_of_LONG r in
  (refCount,
   if 0 =? refCount then None
   else Some {| m_references := r; m_externalCallback := m_externalCallback o |}).

(** QueryInterface: the result, whether [*ppvInterface] is set to the
    object (otherwise to NULL), and the object. *)
Definition QueryInterface (riid : GUID) (o : AudioEndpointVolumeCallback)
  : HRESULT * bool * AudioEndpointVolumeCallback :=
  if IID_IUnknown =? riid then (S_OK, true, snd (AddRef o))
  else if IID_IAudioEndpointVolumeCallback =? riid then (S_OK, true, snd (AddRef o))
  else (E_NOINTERFACE, false, o).

(** OnNotify; [None] is a NULL [pNotify].  Whatever the registered callback
    throws is caught and dropped. *)
Definition OnNotify (o : AudioEndpointVolumeCallback)
  (pNotify : option AUDIO_VOLUME_NOTIFICATION_DATA) (s : Sys) : HRESULT * Sys :=
  match pNotify with
  | None => (E_INVALIDARG, s)
  | Some n =>
      match m_externalCallback o with
      | Some callback => (S_OK, snd (callback n s))
      | None => (S_OK, s)
      end
  end.

(** The uses a client makes of the reference count. *)
Inductive RefOp :=
| DoAddRef
| DoRelease
| DoQueryInterface (riid : GUID).

(** One use, on an object that may already have deleted itself (any use
    after that is undefined in C++; here it finds no object). *)
Definition ref_step (o : option AudioEndpointVolumeCallback) (op : RefOp)
  : option AudioEndpointVolumeCallback :=
  match o with
  | None => None
  | Some o =>
      match op with
      | DoAddRef => Some (snd (AddRef o))
      | DoRelease => snd (Release o)
      | DoQueryInterface riid => Some (snd (QueryInterface riid o))
      end
  end.

(** What a use adds to the number of references held. *)
Definition ref_delta (op : RefOp) : Z :=
  match op with
  | DoAddRef => 1
  | DoRelease => -1
  | DoQueryInterface riid =>
      if (IID_IUnknown =? riid) || (IID_IAudioEndpointVolumeCallback =? riid) then 1 else 0
  end.

Definition ref_total (ops : list RefOp) : Z :=
  fold_right (fun op z => ref_delta op + z) 0 ops.

(** *** The controller in use *)

(** What can happen to a controller between its construction and its
    destruction: calls of its public methods (an exception is caught by
    the caller, as the dialog does), a notification from the platform
    through the callback object, and the platform changing the answers it
    will give. *)
Inductive Op :=
| OpLink (masterIdx slaveIdx : Z)
| OpUnlink
| OpSetDialog (hDlg : HWND) (muteCheckboxID volumeSliderID : Z)
| OpSetMasterVolume (fVolume : float)
| OpSetMasterMute (bMuted : BOOL)
| OpNotify (pNotify : option AUDIO_VOLUME_NOTIFICATION_DATA)
| OpPlatform (hr : Call -> HRESULT).

Definition set_w_hr (hr : Call -> HRESULT) (w : World) : World :=
  {| w_hr := hr; w_endpoints := w_endpoints w;
     w_volume := w_volume w; w_mute := w_mute w;
     w_subscribed := w_subscribed w; w_trace := w_trace w |}.

Definition run_op (s : Sys) (o : Op) : Sys :=
  match o with
  | OpLink masterIdx slaveIdx => snd (linkDevices masterIdx slaveIdx s)
  | OpUnlink => snd (unlinkDevices s)
  | OpSetDialog hDlg mute slider => snd (setDialog hDlg mute slider s)
  | OpSetMasterVolume fVolume => snd (setMasterVolume fVolume s)
  | OpSetMasterMute bMuted => snd (setMasterMute bMuted s)
  | OpNotify pNotify =>
      snd (OnNotify (registerCallback _onVolumeCallback AudioEndpointVolumeCallback_new)
             pNotify s)
  | OpPlatform hr => {| mgr := mgr s; world := set_w_hr hr (world s) |}
  end.

Definition run_ops (ops : list Op) (s : Sys) : Sys := fold_left run_op ops s.

(** The link as the data of the controller and the platform describe it:
    while the flag is up, the two indices are distinct positions of the
    catalog, the two handles are those of the devices at these positions,
    and the callback is registered on the master's endpoint and nowhere
    else; while it is down, the indices are -1 and the callback is
    registered nowhere. *)
Definition link_invariant (s : Sys) : Prop :=
  let m := mgr s in
  if m_bLinkActive m then
    0 <= m_iMasterDeviceIdx m /\ 0 <= m_iSlaveDeviceIdx m /\
    m_iMasterDeviceIdx m <> m_iSlaveDeviceIdx m /\
    (exists dm ds,
        nth_error (m_audioDevices m) (Z.to_nat (m_iMasterDeviceIdx m)) = Some dm /\
        nth_error (m_audioDevices m) (Z.to_nat (m_iSlaveDeviceIdx m)) = Some ds /\
        m_pMasterEndptVol m = Some (m_pEndpoint dm) /\
        m_pSlaveEndptVol m = Some (m_pEndpoint ds) /\
        w_subscribed (world s) = [m_pEndpoint dm])
  else
    m_iMasterDeviceIdx m = -1 /\ m_iSlaveDeviceIdx m = -1 /\
    w_subscribed (world s) = [].

(** AudioDeviceManager::~AudioDeviceManager; the callback object is a
    member of the controller. *)
Definition AudioDeviceManager_delete (m_endpointVolumeCallback : AudioEndpointVolumeCallback)
  : M Sys AudioEndpointVolumeCallback :=
  unlinkDevices ;;
  ret (unregisterCallback m_endpointVolumeCallback).

(** *** The dialog (main.cpp) *)

(** [static_cast<float>] of an integer, and the division of two [float]s. *)
Definition float_of_int (z : Z) : float := binary_normalize 24 128 z 0 false.
Definition SFdiv32 : float -> float -> float := SFdiv 24 128.

(** WM_HSCROLL, lines 1021-1026: the volume for a slider position. *)
Definition volume_of_slider (iVolume : Z) : float :=
  let iVolume :=
    if iVolume <? 0 then 0
    else if iVolume >? MAX_VOL then MAX_VOL
    else iVolume in
  SFdiv32 (float_of_int iVolume) (float_of_int MAX_VOL).

(** [wstring::compare(...) == 0]: the two strings are equal. *)
Fixpoint wstring_eqb (a b : wstring) : bool :=
  match a, b with
  | [], [] => true
  | x :: a', y :: b' => (x =? y) && wstring_eqb a' b'
  | _, _ => false
  end.

(** WM_INITDIALOG, lines 731-752: the loop that looks the saved device
    identifiers up in the catalog. *)
Fixpoint select_saved (audioDevices : list AudioDevice)
  (masterDeviceId slaveDeviceId : wstring) (counter masterIdx slaveIdx : Z) : Z * Z :=
  match audioDevices with
  | [] => (masterIdx, slaveIdx)
  | device :: rest =>
      let deviceId := getId_ device in
      let masterIdx :=
        if wstring_eqb deviceId masterDeviceId && (0 <? Z.of_nat (length masterDeviceId))
        then counter else masterIdx in
      let slaveIdx :=
        if wstring_eqb deviceId slaveDeviceId && (0 <? Z.of_nat (length slaveDeviceId))
        then counter else slaveIdx in
      select_saved rest masterDeviceId slaveDeviceId (counter + 1) masterIdx slaveIdx
  end.

Definition saved_selection (m : AudioDeviceManager)
  (masterDeviceId slaveDeviceId : wstring) : Z * Z :=
  select_saved (getAudioDevices m) masterDeviceId slaveDeviceId 0 (-1) (-1).

(** WM_INITDIALOG, line 765: whether the dialog links at once. *)
Definition auto_link (linkActive g_optForceLink : bool) (masterIdx slaveIdx : Z) : bool :=
  (linkActive || g_optForceLink) && (0 <=? masterIdx) && (0 <=? slaveIdx).

(** Dlg_SaveSettings, lines 437-462 and 470-472: the identifiers and the
    flag it writes for the current selection. *)
Definition settings_to_save (s : Sys) (masterIdx slaveIdx : Z) : wstring * wstring * Z :=
  let linkActive := isLinkActive (mgr s) in
  let '(linkActive, masterDeviceId) :=
    match fst (getDevice masterIdx s) with
    | Ok masterDevice => (linkActive, getId_ masterDevice)
    | Throw _ => (false, [])
    end in
  let '(linkActive, slaveDeviceId) :=
    match fst (getDevice slaveIdx s) with
    | Ok slaveDevice => (linkActive, getId_ slaveDevice)
    | Throw _ => (false, [])
    end in
  (masterDeviceId, slaveDeviceId, if linkActive then 1 else 0).

(** wWinMain, lines 143-156: the options on the command line; the first
    element of [wargv] is the path of the executable. *)
Definition option_step (towlower : wchar_t -> wchar_t) (opts : bool * bool) (arg : wstring)
  : bool * bool :=
  let '(g_optStartMinimized, g_optForceLink) := opts in
  if (_wcsicmp towlower arg (L "/m") =? 0) ||
     (_wcsicmp towlower arg (L "/minimized") =? 0) ||
     (_wcsicmp towlower arg (L "/minimize") =? 0)
  then (true, g_optForceLink)
  else if (_wcsicmp towlower arg (L "/l") =? 0) ||
          (_wcsicmp towlower arg (L "/link") =? 0)
  then (g_optStartMinimized, true)
  else (g_optStartMinimized, g_optForceLink).

Definition command_line_options (towlower : wchar_t -> wchar_t) (wargv : list wstring)
  : bool * bool :=
  fold_left (option_step towlower) (tl wargv) (false, false).

(** The index [idx] is what the dialog selects for the saved identifier
    [id]: a position of the catalog whose device has this identifier, or
    -1 when the identifier is empty or no device has it. *)
Definition selected (s : Sys) (id : wstring) (idx : Z) : Prop :=
  (idx = -1 /\
   (id = [] \/ forall d, In d (getAudioDevices (mgr s)) -> getId_ d <> id)) \/
  (id <> [] /\ exists d, fst (getDevice idx s) = Ok d /\ getId_ d = id).

(** A dropdown selection that is a position of the catalog; every other
    one is saved as "none" and restored as -1. *)
Definition in_catalog (s : Sys) (idx : Z) : bool :=
  (0 <=? idx) && (idx <? Z.of_nat (length (getAudioDevices (mgr s)))).

Definition restored (s : Sys) (idx : Z) : Z :=
  if in_catalog s idx then idx else -1.

(** The closing request of a fatal error, to the dialog [hDlg]. *)
Definition close_requested (hDlg : HWND) (s : Sys) : Prop :=
  hDlg <> NULL /\
  In (PostMessage (Dialog hDlg) WM_CLOSE 0 0) (map ev_call (w_trace (world s))).

(** Every step of [linkDevices masterIdx slaveIdx] succeeds when it is run
    from [s]: the two positions differ, [getDevice] finds a device at each,
    and the platform answers each of the seven calls with success (opening
    the two handles, registering the callback on the master, reading the
    master's mute state and volume, writing both to the slave). *)
Definition link_steps_succeed (masterIdx slaveIdx : Z) (s : Sys) : bool :=
  negb (masterIdx =? slaveIdx) &&
  match fst (getDevice masterIdx s), fst (getDevice slaveIdx s) with
  | Ok masterDevice, Ok slaveDevice =>
      let pMaster := m_pEndpoint masterDevice in
      let pSlave := m_pEndpoint slaveDevice in
      let guid := m_processGUID (mgr s) in
      let succeeded c := negb (FAILED (w_hr (world s) c)) in
      succeeded (Activate pMaster) &&
      succeeded (Activate pSlave) &&
      succeeded (RegisterControlChangeNotify pMaster) &&
      succeeded (GetMute pMaster) &&
      succeeded (GetMasterVolumeLevelScalar pMaster) &&
      succeeded (SetMasterVolumeLevelScalar pSlave (w_volume (world s) pMaster) guid) &&
      succeeded (SetMute pSlave (w_mute (world s) pMaster) guid)
  | _, _ => false
  end.

(** * Properties *)

(** ** Running the monad *)

Lemma skipn_length_app (A : Type) (l l' : list A) : skipn (length l) (l ++ l') = l'.
Proof. induction l as [|a l IH]; simpl; [reflexivity | exact IH]. Qed.

Lemma platform_trace (c : Call) (b : bool) (w : World) :
  w_trace (snd (platform c b w)) = w_trace w ++ [{| ev_call := c; ev_linkActive := b |}].
Proof.
  unfold platform; simpl.
  destruct c; simpl; try reflexivity;
    destruct (FAILED _); reflexivity.
Qed.

Lemma platform_hr (c : Call) (b : bool) (w : World) :
  w_hr (snd (platform c b w)) = w_hr w.
Proof.
  unfold platform; simpl.
  destruct c; simpl; try reflexivity;
    destruct (FAILED _); reflexivity.
Qed.

Ltac unfold_monad :=
  cbv beta delta [bind ret throw this assign call peek com THROW_IF_COM_FAILED
                  endpoint_strings] in *.

(** Unfolds the methods down to the platform calls. *)
Ltac unfold_methods :=
  cbv beta delta [linkDevices unlinkDevices getDevice setDialog _updateDialog
                  setMasterVolume setMasterMute _setSlaveVolume _onVolumeCallback
                  activateAudioEndpointVolume] in *;
  unfold_monad.

(** ** unlinkDevices *)

Lemma unlinkDevices_ok (s : Sys) :
  fst (unlinkDevices s) = Ok tt /\ Unlinked (mgr (snd (unlinkDevices s))).
Proof.
  destruct s as [m w]. unfold_methods. simpl.
  destruct (m_bLinkActive m), (m_pMasterEndptVol m); simpl;
    repeat split; reflexivity.
Qed.

Lemma unlinkDevices_fixed (s : Sys) :
  Unlinked (mgr s) -> unlinkDevices s = (Ok tt, s).
Proof.
  destruct s as [m w]. destruct m. unfold Unlinked. simpl.
  intros (-> & -> & -> & -> & ->). reflexivity.
Qed.

Lemma unlinkDevices_eta (s : Sys) : unlinkDevices s = (Ok tt, snd (unlinkDevices s)).
Proof.
  destruct (unlinkDevices_ok s) as [H _].
  destruct (unlinkDevices s) as [r s']. simpl in *. now subst.
Qed.

Lemma times_unlinkDevices_fixed (n : nat) (s : Sys) :
  Unlinked (mgr s) -> times n unlinkDevices s = (Ok tt, s).
Proof.
  intro H. induction n as [|n IH]; simpl.
  - reflexivity.
  - unfold bind. rewrite (unlinkDevices_fixed _ H). exact IH.
Qed.

(** C6. [unlinkDevices] never throws, leaves the controller Unlinked
    (flag down, both indices -1, both handles released) whatever state it
    is called in, and calling it any number of times in a row, once or
    more, has exactly the effect of calling it once. *)
Theorem unlinkDevices_idempotent (n : nat) (s : Sys) :
  fst (unlinkDevices s) = Ok tt /\
  Unlinked (mgr (snd (unlinkDevices s))) /\
  times (S n) unlinkDevices s = unlinkDevices s.
Proof.
  destruct (unlinkDevices_ok s) as [Hok Hun].
  split; [exact Hok | split; [exact Hun |]].
  pose proof (unlinkDevices_eta s) as E.
  simpl. unfold bind.
  destruct (unlinkDevices s) as [r s'] eqn:U.
  simpl in *. injection E as ->.
  apply times_unlinkDevices_fixed. exact Hun.
Qed.

(** ** linkDevices on one device *)

(** C7. For every index [i], valid or not, and every state of the
    controller, [linkDevices i i] throws "Cannot link device to itself." and
    leaves the controller Unlinked: the state it leaves is the one
    [unlinkDevices] produces, so a link that was active is torn down. *)
Theorem linkDevices_self_link (i : Z) (s : Sys) :
  fst (linkDevices i i s) = Throw "Cannot link device to itself." /\
  snd (linkDevices i i s) = snd (unlinkDevices s) /\
  Unlinked (mgr (snd (linkDevices i i s))).
Proof.
  assert (E : linkDevices i i s
              = (Throw "Cannot link device to itself.", snd (unlinkDevices s))).
  { unfold linkDevices. unfold bind at 1.
    rewrite (unlinkDevices_eta s).
    unfold bind at 1. rewrite Z.eqb_refl. reflexivity. }
  rewrite E. simpl.
  repeat split; apply (unlinkDevices_ok s).
Qed.

(** ** getDevice *)

(** C8. [getDevice idx] never changes the controller or the platform.  It
    throws exactly when [idx] is negative or at least the size of the
    catalog (with the message of the case), and otherwise returns the
    device at position [idx] of the catalog. *)
Theorem getDevice_bounds (idx : Z) (s : Sys) :
  snd (getDevice idx s) = s /\
  match fst (getDevice idx s) with
  | Ok d =>
      0 <= idx < Z.of_nat (length (m_audioDevices (mgr s))) /\
      nth_error (m_audioDevices (mgr s)) (Z.to_nat idx) = Some d
  | Throw what =>
      (idx < 0 /\ what = "Negative device number requested."%string) \/
      (Z.of_nat (length (m_audioDevices (mgr s))) <= idx /\
       what = "Invalid device number requested."%string)
  end.
Proof.
  unfold_methods.
  destruct (Z.ltb_spec idx 0) as [Hneg|Hpos]; simpl.
  - split; [reflexivity | left; split; [exact Hneg | reflexivity]].
  - destruct (nth_error (m_audioDevices (mgr s)) (Z.to_nat idx)) as [d|] eqn:E; simpl.
    + split; [reflexivity |].
      split; [| reflexivity].
      assert (Hlt : (Z.to_nat idx < length (m_audioDevices (mgr s)))%nat)
        by (apply nth_error_Some; congruence).
      lia.
    + split; [reflexivity |].
      right. split; [| reflexivity].
      apply nth_error_None in E. lia.
Qed.

(** ** The setters of the master device *)

(** C10. [setMasterVolume] and [setMasterMute] leave every field of the
    controller as it was (flag, indices, handles, exit code, dialog), and
    make at most one platform call: with a master handle, a single
    [SetMasterVolumeLevelScalar] (resp. [SetMute]) on that handle, carrying
    the argument as given, unclamped, and the controller's own GUID; with
    none, no call at all.  No call on the slave handle is made, the
    subscriptions are untouched, and the result tells whether the call
    succeeded. *)
Theorem setMaster_frame (fVolume : float) (muted : BOOL) (s : Sys) :
  let m := mgr s in
  (mgr (snd (setMasterVolume fVolume s)) = m /\
   w_subscribed (world (snd (setMasterVolume fVolume s))) = w_subscribed (world s) /\
   new_calls (setMasterVolume fVolume) s =
     match m_pMasterEndptVol m with
     | Some h => [SetMasterVolumeLevelScalar h fVolume (m_processGUID m)]
     | None => []
     end /\
   fst (setMasterVolume fVolume s) =
     Ok match m_pMasterEndptVol m with
        | Some h => negb (FAILED (w_hr (world s)
                            (SetMasterVolumeLevelScalar h fVolume (m_processGUID m))))
        | None => true
        end) /\
  (mgr (snd (setMasterMute muted s)) = m /\
   w_subscribed (world (snd (setMasterMute muted s))) = w_subscribed (world s) /\
   new_calls (setMasterMute muted) s =
     match m_pMasterEndptVol m with
     | Some h => [SetMute h muted (m_processGUID m)]
     | None => []
     end /\
   fst (setMasterMute muted s) =
     Ok match m_pMasterEndptVol m with
        | Some h => negb (FAILED (w_hr (world s) (SetMute h muted (m_processGUID m))))
        | None => true
        end).
Proof.
  destruct s as [m w]. unfold new_calls, new_events. unfold_methods. simpl.
  destruct (m_pMasterEndptVol m) as [h|]; simpl.
  - split; (destruct (FAILED _) eqn:F; simpl; rewrite ?F; simpl;
            rewrite skipn_length_app; repeat split; reflexivity).
  - rewrite <- (app_nil_r (w_trace w)) at 2 4.
    rewrite skipn_length_app. repeat split; reflexivity.
Qed.

(** ** The notification handler *)

Lemma new_calls_linked_handler
  (pNotify : AUDIO_VOLUME_NOTIFICATION_DATA) (s : Sys) (hm hs : IAudioEndpointVolume) :
  Linked (mgr s) hm hs ->
  let m := mgr s in
  let vol := fMasterVolume pNotify in
  let muted := bMuted pNotify in
  let set_volume := SetMasterVolumeLevelScalar hs vol (m_processGUID m) in
  let set_mute := SetMute hs muted (m_processGUID m) in
  new_calls (_onVolumeCallback pNotify) s =
    (if negb (guidEventContext pNotify =? m_processGUID m) && negb (m_hDialog m =? NULL)
     then [PostMessage (GetDlgItem (m_hDialog m) (int_of_ptrdiff (m_iMuteCheckboxID m)))
             BM_SETCHECK (if muted =? 0 then BST_UNCHECKED else BST_CHECKED) 0;
           PostMessage (GetDlgItem (m_hDialog m) (int_of_ptrdiff (m_iVolumeSliderID m)))
             TBM_SETPOS TRUE (UINT32_of_ptrdiff (sliderVolume vol))]
     else []) ++
    set_volume ::
    (if FAILED (w_hr (world s) set_volume) then [] else [set_mute]) ++
    (if (FAILED (w_hr (world s) set_volume) || FAILED (w_hr (world s) set_mute))
        && negb (m_hDialog m =? NULL)
     then [MessageBoxW (m_hDialog m)
             "Failed to sync master volume to slave device in callback. The program will now exit."
             "Fatal Error";
           PostMessage (Dialog (m_hDialog m)) WM_CLOSE 0 0]
     else []).
Proof.
  destruct s as [m w]. intros (Ha & Hm & Hs). simpl in *.
  unfold new_calls, new_events. unfold_methods. simpl.
  rewrite Ha, Hm, Hs. simpl.
  destruct (guidEventContext pNotify =? m_processGUID m); simpl;
  destruct (m_hDialog m =? NULL) eqn:D; simpl; rewrite ?Hs; simpl;
  destruct (FAILED (w_hr w (SetMasterVolumeLevelScalar hs (fMasterVolume pNotify)
                              (m_processGUID m)))) eqn:F1; simpl; rewrite ?F1, ?D; simpl;
  try (destruct (FAILED (w_hr w (SetMute hs (bMuted pNotify) (m_processGUID m)))) eqn:F2;
       simpl; rewrite ?F2, ?D; simpl);
  rewrite <- ?app_assoc; rewrite skipn_length_app; reflexivity.
Qed.

(** C1, as amended.  While the controller is Linked, the handler writes to
    the slave handle whatever the event's context GUID is: the volume with
    the controller's own GUID and then, unless that write failed, the mute
    state.  It posts the two messages that update the dialog, with the mute
    state and the slider position of the volume, exactly when the context
    GUID differs from the controller's own and a dialog is attached. *)
Theorem onVolumeCallback_relay_and_signal
  (pNotify : AUDIO_VOLUME_NOTIFICATION_DATA) (s : Sys) (hm hs : IAudioEndpointVolume) :
  Linked (mgr s) hm hs ->
  filter (writes_handle hs) (new_calls (_onVolumeCallback pNotify) s) =
    SetMasterVolumeLevelScalar hs (fMasterVolume pNotify) (m_processGUID (mgr s)) ::
    (if FAILED (w_hr (world s)
                  (SetMasterVolumeLevelScalar hs (fMasterVolume pNotify)
                     (m_processGUID (mgr s))))
     then []
     else [SetMute hs (bMuted pNotify) (m_processGUID (mgr s))]) /\
  filter dialog_update (new_calls (_onVolumeCallback pNotify) s) =
    (if negb (guidEventContext pNotify =? m_processGUID (mgr s))
        && negb (m_hDialog (mgr s) =? NULL)
     then [PostMessage
             (GetDlgItem (m_hDialog (mgr s)) (int_of_ptrdiff (m_iMuteCheckboxID (mgr s))))
             BM_SETCHECK (if bMuted pNotify =? 0 then BST_UNCHECKED else BST_CHECKED) 0;
           PostMessage
             (GetDlgItem (m_hDialog (mgr s)) (int_of_ptrdiff (m_iVolumeSliderID (mgr s))))
             TBM_SETPOS TRUE (UINT32_of_ptrdiff (sliderVolume (fMasterVolume pNotify)))]
     else []) /\
  (filter dialog_update (new_calls (_onVolumeCallback pNotify) s) <> [] <->
   guidEventContext pNotify <> m_processGUID (mgr s) /\ m_hDialog (mgr s) <> NULL).
Proof.
  intro HL.
  rewrite (@new_calls_linked_handler pNotify s hm hs HL). cbv zeta.
  rewrite !filter_app. simpl. rewrite Nat.eqb_refl.
  destruct (Z.eqb_spec (guidEventContext pNotify) (m_processGUID (mgr s))) as [G|G];
  destruct (Z.eqb_spec (m_hDialog (mgr s)) NULL) as [D|D];
  destruct (FAILED (w_hr (world s) (SetMasterVolumeLevelScalar hs _ _))) eqn:F1;
  destruct (FAILED (w_hr (world s) (SetMute hs _ _))) eqn:F2;
  simpl; rewrite ?Nat.eqb_refl; simpl;
  (split; [reflexivity | split; [reflexivity |]]);
  (split; [intro H; try (exfalso; apply H; reflexivity); split; assumption
          | intros [H1 H2]; try contradiction; discriminate]).
Qed.

Lemma onVolumeCallback_relay_and_signal_witness :
  Linked (mgr (sys_linked 500 world_ok)) 0 2 /\
  filter (writes_handle 2)
    (new_calls (_onVolumeCallback notify_external) (sys_linked 500 world_ok)) =
    [SetMasterVolumeLevelScalar 2 f_0_42 7; SetMute 2 FALSE 7] /\
  filter dialog_update
    (new_calls (_onVolumeCallback notify_external) (sys_linked 500 world_ok)) =
    [PostMessage (GetDlgItem 500 1001) BM_SETCHECK BST_UNCHECKED 0;
     PostMessage (GetDlgItem 500 1002) TBM_SETPOS TRUE 42].
Proof.
  assert (HL : Linked (mgr (sys_linked 500 world_ok)) 0 2)
    by (repeat split; reflexivity).
  split; [exact HL |].
  destruct (@onVolumeCallback_relay_and_signal notify_external _ _ _ HL) as (H1 & H2 & _).
  split; [exact H1 | exact H2].
Defined.

(** C1, the claim as first stated, fails: with no dialog attached, an event
    whose context GUID differs from the controller's own is relayed to the
    slave, but nothing is posted to any observer. *)
Lemma onVolumeCallback_no_dialog_no_signal :
  Linked (mgr (sys_linked NULL world_ok)) 0 2 /\
  guidEventContext notify_external <> m_processGUID (mgr (sys_linked NULL world_ok)) /\
  new_calls (_onVolumeCallback notify_external) (sys_linked NULL world_ok) =
    [SetMasterVolumeLevelScalar 2 f_0_42 7; SetMute 2 FALSE 7] /\
  filter dialog_update
    (new_calls (_onVolumeCallback notify_external) (sys_linked NULL world_ok)) = [].
Proof.
  repeat split; try reflexivity. discriminate.
Qed.

(** The two cases the specification tests, with a dialog attached: a change
    made by another program is relayed and shown, a change the controller
    made itself is relayed and not shown. *)
Lemma onVolumeCallback_examples :
  new_calls (_onVolumeCallback notify_external) (sys_linked 500 world_ok) =
    [PostMessage (GetDlgItem 500 1001) BM_SETCHECK BST_UNCHECKED 0;
     PostMessage (GetDlgItem 500 1002) TBM_SETPOS TRUE 42;
     SetMasterVolumeLevelScalar 2 f_0_42 7; SetMute 2 FALSE 7] /\
  new_calls (_onVolumeCallback notify_own) (sys_linked 500 world_ok) =
    [SetMasterVolumeLevelScalar 2 f_0_42 7; SetMute 2 FALSE 7].
Proof. split; reflexivity. Qed.

(** C4, as amended.  While the controller is Linked and a dialog is
    attached, a relay that fails sets the exit code to 1, shows the error
    box and posts WM_CLOSE to the dialog.  With no dialog attached the
    failure is dropped: the exit code keeps its value and nothing is
    reported. *)
Theorem onVolumeCallback_relay_failure
  (pNotify : AUDIO_VOLUME_NOTIFICATION_DATA) (s : Sys) (hm hs : IAudioEndpointVolume) :
  Linked (mgr s) hm hs ->
  relay_fails pNotify s ->
  fst (_onVolumeCallback pNotify s) = Ok tt /\
  m_exitCode (mgr (snd (_onVolumeCallback pNotify s))) =
    (if m_hDialog (mgr s) =? NULL then m_exitCode (mgr s) else 1) /\
  filter fatal_report (new_calls (_onVolumeCallback pNotify) s) =
    (if m_hDialog (mgr s) =? NULL then []
     else [MessageBoxW (m_hDialog (mgr s))
             "Failed to sync master volume to slave device in callback. The program will now exit."
             "Fatal Error";
           PostMessage (Dialog (m_hDialog (mgr s))) WM_CLOSE 0 0]).
Proof.
  intros HL HF.
  assert (HF' : FAILED (w_hr (world s)
                  (SetMasterVolumeLevelScalar hs (fMasterVolume pNotify)
                     (m_processGUID (mgr s))))
                || FAILED (w_hr (world s)
                     (SetMute hs (bMuted pNotify) (m_processGUID (mgr s)))) = true).
  { destruct s as [m w]. destruct HL as (Ha & Hm & Hs). simpl in *.
    revert HF. unfold relay_fails. unfold_methods. simpl. rewrite Hs. simpl.
    destruct (FAILED (w_hr w (SetMasterVolumeLevelScalar _ _ _))) eqn:F1; simpl;
      [reflexivity |].
    rewrite ?F1. simpl.
    destruct (FAILED (w_hr w (SetMute _ _ _))) eqn:F2; simpl;
      [reflexivity |].
    rewrite ?F2. simpl. discriminate. }
  split; [| split].
  - destruct s as [m w]. destruct HL as (Ha & Hm & Hs). simpl in *.
    unfold_methods. simpl. rewrite Ha, Hm, Hs. simpl.
    repeat (simpl; rewrite ?Hs;
            match goal with
            | |- context [if ?b then _ else _] => destruct b
            end); reflexivity.
  - destruct s as [m w]. destruct HL as (Ha & Hm & Hs). simpl in *.
    unfold_methods. simpl. rewrite Ha, Hm, Hs. simpl.
    destruct (guidEventContext pNotify =? m_processGUID m); simpl;
    destruct (m_hDialog m =? NULL) eqn:D; simpl; rewrite ?Hs; simpl;
    destruct (FAILED (w_hr w (SetMasterVolumeLevelScalar hs (fMasterVolume pNotify)
                                (m_processGUID m)))) eqn:F1;
    simpl in *; rewrite ?F1, ?D; simpl; try reflexivity;
    destruct (FAILED (w_hr w (SetMute hs (bMuted pNotify) (m_processGUID m)))) eqn:F2;
    simpl in *; rewrite ?F2, ?D; simpl; try reflexivity; discriminate.
  - rewrite (@new_calls_linked_handler pNotify s hm hs HL). cbv zeta.
    rewrite HF'. rewrite !filter_app. simpl.
    destruct (guidEventContext pNotify =? m_processGUID (mgr s));
    destruct (m_hDialog (mgr s) =? NULL);
    destruct (FAILED (w_hr (world s) (SetMasterVolumeLevelScalar hs _ _)));
    reflexivity.
Qed.

Lemma onVolumeCallback_relay_failure_witness :
  Linked (mgr (sys_linked 500 (world_failing is_set_volume))) 0 2 /\
  relay_fails notify_external (sys_linked 500 (world_failing is_set_volume)) /\
  m_exitCode (mgr (snd (_onVolumeCallback notify_external
                          (sys_linked 500 (world_failing is_set_volume))))) = 1 /\
  filter fatal_report
    (new_calls (_onVolumeCallback notify_external)
       (sys_linked 500 (world_failing is_set_volume))) =
    [MessageBoxW 500
       "Failed to sync master volume to slave device in callback. The program will now exit."
       "Fatal Error";
     PostMessage (Dialog 500) WM_CLOSE 0 0].
Proof.
  assert (HL : Linked (mgr (sys_linked 500 (world_failing is_set_volume))) 0 2)
    by (repeat split; reflexivity).
  assert (HF : relay_fails notify_external (sys_linked 500 (world_failing is_set_volume)))
    by reflexivity.
  split; [exact HL | split; [exact HF |]].
  destruct (@onVolumeCallback_relay_failure notify_external _ _ _ HL HF) as (_ & H1 & H2).
  split; [exact H1 | exact H2].
Defined.

(** C4, the claim as first stated, fails: with no dialog attached, a relay
    that fails while the controller is Linked leaves the exit code at 0 and
    reports nothing; the only call made is the failed write itself. *)
Lemma onVolumeCallback_failure_dropped_without_dialog :
  Linked (mgr (sys_linked NULL (world_failing is_set_volume))) 0 2 /\
  relay_fails notify_external (sys_linked NULL (world_failing is_set_volume)) /\
  m_exitCode (mgr (snd (_onVolumeCallback notify_external
                          (sys_linked NULL (world_failing is_set_volume))))) = 0 /\
  new_calls (_onVolumeCallback notify_external)
    (sys_linked NULL (world_failing is_set_volume)) =
    [SetMasterVolumeLevelScalar 2 f_0_42 7].
Proof.
  repeat split; reflexivity.
Qed.

(** ** linkDevices *)

(** Splits on every test [linkDevices] makes, in the order it makes them. *)
Ltac link_cases m :=
  repeat (simpl; rewrite ?Nat.eqb_refl; simpl;
    match goal with
    | |- context [match m_pMasterEndptVol m with _ => _ end] =>
        destruct (m_pMasterEndptVol m)
    | |- context [if m_bLinkActive m then _ else _] =>
        destruct (m_bLinkActive m)
    | |- context [if ?b then _ else _] =>
        match b with
        | context [if _ then _ else _] => fail 1
        | context [match _ with _ => _ end] => fail 1
        | _ => destruct b eqn:?
        end
    | |- context [match nth_error ?l ?n with _ => _ end] =>
        destruct (nth_error l n) eqn:?
    end).

Lemma skipn_length_self (A : Type) (l : list A) : skipn (length l) l = [].
Proof. rewrite <- (app_nil_r l) at 2. apply skipn_length_app. Qed.

(** What every failed [linkDevices] leaves behind: the flag is down, the
    indices are -1, and no subscription has been added.  The handles are
    released as well, unless the failure is the opening of a handle or the
    registration of the callback. *)
Lemma linkDevices_failure_state (masterIdx slaveIdx : Z) (s : Sys) (what : string) :
  fst (linkDevices masterIdx slaveIdx s) = Throw what ->
  let m' := mgr (snd (linkDevices masterIdx slaveIdx s)) in
  m_bLinkActive m' = false /\
  m_iMasterDeviceIdx m' = -1 /\ m_iSlaveDeviceIdx m' = -1 /\
  incl (w_subscribed (world (snd (linkDevices masterIdx slaveIdx s))))
       (w_subscribed (world s)) /\
  (what <> "Unable to open device endpoint volume control."%string ->
   what <> "Unable to register master audio endpoint volume callback."%string ->
   Unlinked m').
Proof.
  destruct s as [m w]. cbv zeta.
  unfold_methods. unfold Unlinked. simpl.
  link_cases m.
  all: simpl; intro E; try discriminate E;
    injection E as <-;
    repeat split; try reflexivity; try congruence;
    rewrite ?Nat.eqb_refl; simpl;
    try (intros x Hx;
         repeat (apply filter_In in Hx; destruct Hx as [Hx _]);
         exact Hx).
Qed.

(** C2, the failing case.  When the registration of the callback fails,
    [linkDevices] throws with the flag down and the indices at -1, but both
    handles it has opened stay in the object: the controller is not
    Unlinked, and [setMasterVolume], which does nothing on an Unlinked
    controller, now writes to the device that was to become the master. *)
Theorem linkDevices_register_failure_keeps_handles :
  let s := sys_fresh 500 (world_failing is_register) in
  let s' := snd (linkDevices 1 0 s) in
  Unlinked (mgr s) /\
  fst (linkDevices 1 0 s) =
    Throw "Unable to register master audio endpoint volume callback." /\
  isLinkActive (mgr s') = false /\
  m_pMasterEndptVol (mgr s') = Some 0%nat /\
  m_pSlaveEndptVol (mgr s') = Some 2%nat /\
  ~ Unlinked (mgr s') /\
  w_subscribed (world s') = [] /\
  new_calls (setMasterVolume f_1_0) s' = [SetMasterVolumeLevelScalar 0 f_1_0 7] /\
  new_calls (setMasterVolume f_1_0) s = [].
Proof.
  cbv zeta.
  repeat split; try reflexivity.
  intros (_ & _ & _ & H & _). discriminate H.
Qed.

(** Rewrites with the answers a case analysis has fixed. *)
Ltac rewrite_answers :=
  repeat match goal with
         | H : FAILED _ = _ |- _ => rewrite H; clear H
         | H : (_ <? 0) = _ |- _ => rewrite H; clear H
         | H : (_ =? _) = _ |- _ => rewrite H; clear H
         | H : nth_error _ _ = _ |- _ => rewrite H; clear H
         end.

(** C3, as amended.  [linkDevices] marks the controller Linked as soon as
    the callback is registered: the handles are opened and the callback is
    registered with the flag down, and every later call (the two reads of
    the master's state, the writes to the slave, the update of the dialog,
    and the unregistration when one of them fails) is made with the flag
    up.  When [linkDevices] returns, it has succeeded, and the controller
    is marked Linked, exactly when every step has succeeded: the positions
    differ, each holds a device, and the platform has answered each of the
    seven calls with success.  The two indices are then stored; after a
    failure the flag is down and the indices are -1. *)
Theorem linkDevices_commit_point (masterIdx slaveIdx : Z) (s : Sys) :
  let s' := snd (linkDevices masterIdx slaveIdx s) in
  is_Ok (fst (linkDevices masterIdx slaveIdx s)) = link_steps_succeed masterIdx slaveIdx s /\
  isLinkActive (mgr s') = link_steps_succeed masterIdx slaveIdx s /\
  match fst (linkDevices masterIdx slaveIdx s) with
  | Ok _ =>
      isLinkActive (mgr s') = true /\
      getMasterDeviceIdx (mgr s') = masterIdx /\ getSlaveDeviceIdx (mgr s') = slaveIdx
  | Throw _ =>
      isLinkActive (mgr s') = false /\
      getMasterDeviceIdx (mgr s') = -1 /\ getSlaveDeviceIdx (mgr s') = -1
  end /\
  Forall (fun e => ev_linkActive e = negb (setup_call (ev_call e)))
         (new_events (linkDevices masterIdx slaveIdx) s).
Proof.
  destruct s as [m w]. cbv zeta.
  unfold link_steps_succeed, new_events, isLinkActive, getMasterDeviceIdx, getSlaveDeviceIdx.
  unfold_methods. simpl.
  destruct (m_bLinkActive m) eqn:Hactive.
  all: link_cases m.
  all: simpl; rewrite_answers; simpl; rewrite ?andb_false_r; simpl.
  all: split; [reflexivity |]; (split; [reflexivity |]).
  all: simpl; (split; [repeat split; reflexivity |]);
    rewrite <- ?app_assoc; rewrite ?skipn_length_app, ?skipn_length_self;
    simpl; rewrite ?Hactive; repeat constructor.
Qed.

(** C3, the claim as first stated, fails: starting from an Unlinked
    controller on a platform where every call succeeds, the reads of the
    master's state and the writes to the slave are all made with the
    controller already marked Linked. *)
Lemma linkDevices_marks_linked_before_sync :
  let s := sys_fresh NULL world_ok in
  Unlinked (mgr s) /\
  fst (linkDevices 1 0 s) = Ok tt /\
  new_events (linkDevices 1 0) s =
    [ {| ev_call := Activate 0; ev_linkActive := false |};
      {| ev_call := Activate 2; ev_linkActive := false |};
      {| ev_call := RegisterControlChangeNotify 0; ev_linkActive := false |};
      {| ev_call := GetMute 0; ev_linkActive := true |};
      {| ev_call := GetMasterVolumeLevelScalar 0; ev_linkActive := true |};
      {| ev_call := SetMasterVolumeLevelScalar 2 f_0_5 7; ev_linkActive := true |};
      {| ev_call := SetMute 2 FALSE 7; ev_linkActive := true |} ].
Proof.
  cbv zeta. repeat split; reflexivity.
Qed.

(** ** The comparison of names *)

Section Wcsicmp.

Variable towlower : wchar_t -> wchar_t.
Hypothesis towlower_NUL : towlower 0 = 0.

Lemma wcsicmp_refl (a : wstring) : _wcsicmp towlower a a = 0.
Proof.
  induction a as [|c a IH]; simpl.
  - lia.
  - rewrite Z.eqb_refl. destruct (towlower c =? 0); simpl; [lia | exact IH].
Qed.

Lemma wcsicmp_antisym (a b : wstring) :
  _wcsicmp towlower b a = - _wcsicmp towlower a b.
Proof.
  revert b. induction a as [|c a IH]; intros [|d b]; simpl;
    rewrite ?towlower_NUL.
  - reflexivity.
  - destruct (Z.eqb_spec (towlower d) 0) as [E|E]; simpl.
    + lia.
    + destruct (Z.eqb_spec (towlower d) 0); [contradiction | simpl; lia].
  - destruct (Z.eqb_spec (towlower c) 0) as [E|E]; simpl.
    + lia.
    + destruct (Z.eqb_spec (towlower c) 0); [contradiction | simpl; lia].
  - destruct (Z.eqb_spec (towlower c) 0) as [Ec|Ec];
    destruct (Z.eqb_spec (towlower d) 0) as [Ed|Ed];
    destruct (Z.eqb_spec (towlower c) (towlower d)) as [E|E];
    destruct (Z.eqb_spec (towlower d) (towlower c)) as [E'|E'];
    simpl; try lia.
    apply IH.
Qed.

(** Both orders are transitive, and they mix. *)
Lemma wcsicmp_trans (a b c : wstring) :
  _wcsicmp towlower a b <= 0 -> _wcsicmp towlower b c <= 0 ->
  _wcsicmp towlower a c <= 0 /\
  (_wcsicmp towlower a b < 0 \/ _wcsicmp towlower b c < 0 ->
   _wcsicmp towlower a c < 0).
Proof.
  revert b c. induction a as [|x a IH]; intros [|y b] [|z c]; simpl;
    rewrite ?towlower_NUL;
    repeat match goal with
           | |- context [?u =? ?v] => destruct (Z.eqb_spec u v)
           end;
    simpl; try lia.
  intros H1 H2. apply (IH b c); assumption.
Qed.

Lemma name_less_strict_weak_order : strict_weak_order (name_less towlower).
Proof.
  unfold strict_weak_order, name_less.
  split; [| split].
  - intro a. rewrite wcsicmp_refl. reflexivity.
  - intros a b c H1 H2.
    apply Z.ltb_lt in H1. apply Z.ltb_lt in H2. apply Z.ltb_lt.
    apply (wcsicmp_trans (getName a) (getName b) (getName c)); lia.
  - intros a b c H1 H2 H3 H4.
    apply Z.ltb_ge in H1. apply Z.ltb_ge in H2.
    apply Z.ltb_ge in H3. apply Z.ltb_ge in H4.
    rewrite (wcsicmp_antisym (getName a) (getName b)) in H2.
    rewrite (wcsicmp_antisym (getName b) (getName c)) in H4.
    split; apply Z.ltb_ge.
    + pose proof (wcsicmp_antisym (getName a) (getName c)) as E.
      destruct (wcsicmp_trans (getName c) (getName b) (getName a)) as [H _].
      * rewrite (wcsicmp_antisym (getName b) (getName c)). lia.
      * rewrite (wcsicmp_antisym (getName a) (getName b)). lia.
      * lia.
    + pose proof (wcsicmp_antisym (getName a) (getName c)) as E.
      destruct (wcsicmp_trans (getName a) (getName b) (getName c)) as [H _]; lia.
Qed.


End Wcsicmp.

(** ** Enumeration *)






(** ** One admissible [std::sort] *)

Lemma strict_weak_order_asym (less : AudioDevice -> AudioDevice -> bool) :
  strict_weak_order less ->
  forall a b, less a b = true -> less b a = false.
Proof.
  intros (Hirr & Htrans & _) a b Hab.
  destruct (less b a) eqn:Hba; [| reflexivity].
  pose proof (Htrans a b a Hab Hba) as H. rewrite Hirr in H. discriminate.
Qed.

Lemma strict_weak_order_negtrans (less : AudioDevice -> AudioDevice -> bool) :
  strict_weak_order less ->
  forall a b c, less a b = false -> less b c = false -> less a c = false.
Proof.
  intros (Hirr & Htrans & Hequiv) a b c Hab Hbc.
  destruct (less a c) eqn:Hac; [| reflexivity].
  destruct (less b a) eqn:Hba.
  - rewrite (Htrans b a c Hba Hac) in Hbc. discriminate.
  - destruct (less c b) eqn:Hcb.
    + rewrite (Htrans a c b Hac Hcb) in Hab. discriminate.
    + destruct (Hequiv a b c Hab Hba Hbc Hcb) as [H _]. congruence.
Qed.

Lemma insert_before_perm (less : AudioDevice -> AudioDevice -> bool)
  (x : AudioDevice) (l : list AudioDevice) :
  Permutation (x :: l) (insert_before less x l).
Proof.
  induction l as [|y l IH]; simpl.
  - apply Permutation_refl.
  - destruct (less x y).
    + apply Permutation_refl.
    + apply perm_trans with (y :: x :: l); [apply perm_swap |].
      apply perm_skip. exact IH.
Qed.

Lemma insert_before_sorted (less : AudioDevice -> AudioDevice -> bool)
  (x : AudioDevice) (l : list AudioDevice) :
  strict_weak_order less ->
  sorted_by less l -> sorted_by less (insert_before less x l).
Proof.
  intros Hswo. unfold sorted_by.
  induction 1 as [|y l Hs IH Hall]; simpl.
  - repeat constructor.
  - destruct (less x y) eqn:Hxy.
    + constructor.
      * constructor; assumption.
      * constructor; [apply (strict_weak_order_asym Hswo); exact Hxy |].
        revert Hall. apply Forall_impl. intros z Hz.
        destruct (less z x) eqn:Hzx; [| reflexivity].
        destruct Hswo as (_ & Htrans & _).
        rewrite (Htrans z x y Hzx Hxy) in Hz. discriminate.
    + constructor; [exact IH |].
      apply (Permutation_Forall (insert_before_perm less x l)).
      constructor; assumption.
Qed.

Lemma insertion_sort_sorts : sorts insertion_sort.
Proof.
  intros less l Hswo. unfold insertion_sort.
  assert (H : forall acc,
             sorted_by less acc ->
             Permutation (l ++ acc)
               (fold_left (fun acc x => insert_before less x acc) l acc) /\
             sorted_by less
               (fold_left (fun acc x => insert_before less x acc) l acc)).
  { induction l as [|x l IH]; intros acc Hacc; simpl.
    - split; [apply Permutation_refl | exact Hacc].
    - destruct (IH (insert_before less x acc)) as [Hp Hs].
      + apply insert_before_sorted; assumption.
      + split; [| exact Hs].
        apply perm_trans with (l ++ insert_before less x acc); [| exact Hp].
        apply perm_trans with (l ++ x :: acc).
        * apply Permutation_middle.
        * apply Permutation_app_head. apply insert_before_perm. }
  destruct (H []) as [Hp Hs]; [constructor |].
  rewrite app_nil_r in Hp. split; assumption.
Qed.


(** On the three endpoints of the examples the library's [std::sort] and
    the insertion sort give the same catalog, the one of [catalog3]. *)
Lemma std_sort_short_catalog :
  libstdcxx.sort (name_less towlower_C) (discovered world_ok) = catalog3 /\
  insertion_sort (name_less towlower_C) (discovered world_ok) = catalog3.
Proof. split; vm_compute; reflexivity. Qed.


(** ** The slider position

    The rest of the file follows the computation of [sliderVolume] through
    the binary64 operations of [SpecFloat]: the promotion of the [float] and
    the product with 100.0 are exact, and the rounding of the sum with 0.5,
    when there is one, stays below the next integer. *)

Unset Implicit Arguments.

(** *** Shifting a mantissa to the right *)

Lemma iter_pos_shift (A : Type) (f : A -> A) (p : positive) (x : A) :
  iter_pos f p (f x) = f (iter_pos f p x).
Proof.
  revert x. induction p as [p IH|p IH|]; intro x; simpl.
  - rewrite !IH. reflexivity.
  - rewrite !IH. reflexivity.
  - reflexivity.
Qed.

Lemma iter_pos_nat (A : Type) (f : A -> A) (p : positive) (x : A) :
  iter_pos f p x = Nat.iter (Pos.to_nat p) f x.
Proof.
  revert x. induction p as [p IH|p IH|]; intro x; cbn [iter_pos].
  - rewrite Pos2Nat.inj_xI, !IH.
    replace (2 * Pos.to_nat p)%nat with (Pos.to_nat p + Pos.to_nat p)%nat by lia.
    rewrite Nat.iter_succ_r, Nat.iter_add. reflexivity.
  - rewrite Pos2Nat.inj_xO, !IH.
    replace (2 * Pos.to_nat p)%nat with (Pos.to_nat p + Pos.to_nat p)%nat by lia.
    rewrite Nat.iter_add. reflexivity.
  - reflexivity.
Qed.

(** the mantissa after one shift *)
Lemma shr_1_m (mrs : shr_record) :
  0 <= shr_m mrs -> shr_m (shr_1 mrs) = shr_m mrs / 2.
Proof.
  destruct mrs as [m r s]. cbn [shr_m]. intro H.
  destruct m as [|[p|p|]|p]; cbn [shr_1 shr_m]; try reflexivity; try lia.
  - apply Z.div_unique with (r := 1); lia.
  - apply Z.div_unique with (r := 0); lia.
Qed.

Lemma shr_nat_m (n : nat) (mrs : shr_record) :
  0 <= shr_m mrs ->
  shr_m (Nat.iter n shr_1 mrs) = shr_m mrs / 2 ^ Z.of_nat n /\
  0 <= shr_m (Nat.iter n shr_1 mrs).
Proof.
  intro H. induction n as [|n [IH1 IH2]].
  - simpl. rewrite Z.div_1_r. split; [reflexivity | exact H].
  - assert (Hp : 0 < 2 ^ Z.of_nat n) by (apply Z.pow_pos_nonneg; lia).
    rewrite Nat2Z.inj_succ, Z.pow_succ_r by lia. rewrite Nat.iter_succ.
    rewrite shr_1_m by exact IH2. rewrite IH1.
    rewrite Z.div_div by lia.
    split; [f_equal; lia |].
    apply Z.div_pos; lia.
Qed.

Lemma shr_1_exact (mrs : shr_record) :
  0 <= shr_m mrs -> shr_r mrs = false -> shr_s mrs = false -> shr_m mrs mod 2 = 0 ->
  shr_r (shr_1 mrs) = false /\ shr_s (shr_1 mrs) = false.
Proof.
  destruct mrs as [m r s]. cbn [shr_m shr_r shr_s]. intros H -> -> Hm.
  destruct m as [|[p|p|]|p]; cbn [shr_1 shr_r shr_s orb];
    try (split; reflexivity); try lia.
  - exfalso. rewrite Pos2Z.inj_xI in Hm.
    rewrite Z.add_comm, Z.mul_comm, Z.mod_add in Hm by lia. discriminate.
  - discriminate.
Qed.

Lemma shr_nat_exact (n : nat) (mrs : shr_record) :
  0 <= shr_m mrs -> shr_r mrs = false -> shr_s mrs = false ->
  shr_m mrs mod 2 ^ Z.of_nat n = 0 ->
  shr_r (Nat.iter n shr_1 mrs) = false /\ shr_s (Nat.iter n shr_1 mrs) = false.
Proof.
  intros H Hr Hs. induction n as [|n IH]; intro Hm.
  - simpl. split; assumption.
  - assert (Hp : 0 < 2 ^ Z.of_nat n) by (apply Z.pow_pos_nonneg; lia).
    rewrite Nat2Z.inj_succ, Z.pow_succ_r in Hm by lia.
    assert (Hdiv : exists k, shr_m mrs = k * 2 * 2 ^ Z.of_nat n).
    { exists (shr_m mrs / (2 * 2 ^ Z.of_nat n)).
      pose proof (Z.div_mod (shr_m mrs) (2 * 2 ^ Z.of_nat n)). lia. }
    destruct Hdiv as [k Hk].
    destruct IH as [IHr IHs].
    { rewrite Hk. apply Z.mod_mul. lia. }
    rewrite Nat.iter_succ. apply shr_1_exact; try assumption.
    + apply (shr_nat_m n mrs H).
    + destruct (shr_nat_m n mrs H) as [E _]. rewrite E, Hk.
      rewrite Z.div_mul by lia. apply Z.mod_mul. lia.
Qed.

Lemma pow2_pos (n : Z) : 0 <= n -> 0 < 2 ^ n.
Proof. intro H. apply Z.pow_pos_nonneg; lia. Qed.

Lemma digits2_pos_bounds (p : positive) :
  2 ^ (Zpos (digits2_pos p) - 1) <= Zpos p < 2 ^ Zpos (digits2_pos p).
Proof.
  induction p as [p IH|p IH|]; cbn [digits2_pos].
  - rewrite Pos2Z.inj_succ, Pos2Z.inj_xI.
    replace (Z.succ (Zpos (digits2_pos p)) - 1) with (Z.succ (Zpos (digits2_pos p) - 1)) by lia.
    rewrite !Z.pow_succ_r by lia. lia.
  - rewrite Pos2Z.inj_succ. change (Zpos p~0) with (2 * Zpos p).
    replace (Z.succ (Zpos (digits2_pos p)) - 1) with (Z.succ (Zpos (digits2_pos p) - 1)) by lia.
    rewrite !Z.pow_succ_r by lia. lia.
  - simpl. lia.
Qed.

Lemma digits2_pos_unique (p : positive) (k : Z) :
  2 ^ (k - 1) <= Zpos p < 2 ^ k -> Zpos (digits2_pos p) = k.
Proof.
  intros [H1 H2].
  destruct (digits2_pos_bounds p) as [B1 B2].
  assert (Hk : 0 < k).
  { destruct (Z.ltb_spec 0 k) as [|Hk]; [assumption |].
    exfalso. destruct (Z.eq_dec k 0) as [->|Hne].
    - simpl in H2. lia.
    - rewrite Z.pow_neg_r in H2 by lia. lia. }
  assert (Zpos (digits2_pos p) - 1 < k).
  { apply (Z.pow_lt_mono_r_iff 2); lia. }
  assert (k - 1 < Zpos (digits2_pos p)).
  { apply (Z.pow_lt_mono_r_iff 2); lia. }
  lia.
Qed.

Lemma shr_pos (mrs : shr_record) (e n : Z) :
  0 < n -> shr mrs e n = (Nat.iter (Z.to_nat n) shr_1 mrs, e + n).
Proof.
  intro H. destruct n as [|p|p]; try lia.
  cbn [shr]. rewrite iter_pos_nat. reflexivity.
Qed.

Lemma shr_nonpos (mrs : shr_record) (e n : Z) :
  n <= 0 -> shr mrs e n = (mrs, e).
Proof.
  intro H. destruct n as [|p|p]; try lia; reflexivity.
Qed.

(** Rounding to binary64 a mantissa whose bits beyond the 53rd are all zero. *)
Lemma binary_round_aux_exact (s : bool) (P : positive) (E n : Z) :
  n = Z.max 0 (Zpos (digits2_pos P) - 53) ->
  -1074 <= E -> E + n <= 971 ->
  Zpos P mod 2 ^ n = 0 ->
  binary_round_aux 53 1024 s (Zpos P) E loc_Exact =
    S754_finite s (Z.to_pos (Zpos P / 2 ^ n)) (E + n).
Proof.
  intros Hn HE1 HE2 Hmod.
  destruct (digits2_pos_bounds P) as [B1 B2].
  unfold binary_round_aux, shr_fexp, fexp, emin.
  cbn [Zdigits2 shr_record_of_loc].
  destruct (Z.ltb_spec 53 (Zpos (digits2_pos P))) as [Hbig|Hsmall].
  - (* more than 53 digits: shift right by n *)
    assert (En : n = Zpos (digits2_pos P) - 53) by lia.
    replace (Z.max (Zpos (digits2_pos P) + E - 53) (3 - 1024 - 53) - E) with n by lia.
    rewrite shr_pos by lia.
    set (mrs := {| shr_m := Zpos P; shr_r := false; shr_s := false |}).
    destruct (shr_nat_m (Z.to_nat n) mrs) as [Hm Hm0]; [simpl; lia |].
    destruct (shr_nat_exact (Z.to_nat n) mrs) as [Hr Hs];
      [simpl; lia | reflexivity | reflexivity | rewrite Z2Nat.id by lia; exact Hmod |].
    rewrite Z2Nat.id in Hm by lia. cbn [shr_m mrs] in Hm.
    destruct (Nat.iter (Z.to_nat n) shr_1 mrs) as [m' r' s'].
    cbn [shr_m shr_r shr_s] in *. subst r' s' m'.
    cbn [loc_of_shr_record round_nearest_even].
    assert (Hq : 2 ^ 52 <= Zpos P / 2 ^ n < 2 ^ 53).
    { assert (Hp : 0 < 2 ^ n) by (apply pow2_pos; lia).
      assert (E1 : 2 ^ (Zpos (digits2_pos P) - 1) = 2 ^ 52 * 2 ^ n)
        by (rewrite <- Z.pow_add_r by lia; f_equal; lia).
      assert (E2 : 2 ^ Zpos (digits2_pos P) = 2 ^ 53 * 2 ^ n)
        by (rewrite <- Z.pow_add_r by lia; f_equal; lia).
      split.
      - apply Z.div_le_lower_bound; lia.
      - apply Z.div_lt_upper_bound; lia. }
    destruct (Zpos P / 2 ^ n) as [|q|q] eqn:Eq; try lia.
    cbn [Zdigits2].
    rewrite (digits2_pos_unique q 53) by (simpl; lia).
    replace (Z.max (53 + (E + n) - 53) (3 - 1024 - 53) - (E + n)) with 0 by lia.
    cbn [shr shr_m].
    replace (E + n <=? 1024 - 53) with true by (symmetry; apply Z.leb_le; lia).
    reflexivity.
  - (* at most 53 digits: nothing to shift *)
    assert (En : n = 0) by lia. clear Hn. subst n.
    rewrite shr_nonpos by lia.
    cbn [loc_of_shr_record round_nearest_even shr_m Zdigits2].
    rewrite shr_nonpos by lia.
    cbn [shr_m]. rewrite Z.add_0_r.
    replace (E <=? 1024 - 53) with true by (symmetry; apply Z.leb_le; lia).
    rewrite Z.pow_0_r, Z.div_1_r. reflexivity.
Qed.

(** Rounding to binary64 a mantissa of more than 53 digits, when rounding
    up cannot carry into a 54th digit. *)
Lemma binary_round_aux_near (s : bool) (P : positive) (E n : Z) :
  n = Zpos (digits2_pos P) - 53 -> 0 < n ->
  -1074 <= E -> E + n <= 971 ->
  Zpos P / 2 ^ n + 1 < 2 ^ 53 ->
  exists m' : positive,
    binary_round_aux 53 1024 s (Zpos P) E loc_Exact = S754_finite s m' (E + n) /\
    Zpos m' < 2 ^ 53.
Proof.
  intros Hn Hpos HE1 HE2 Hcarry.
  destruct (digits2_pos_bounds P) as [B1 B2].
  unfold binary_round_aux, shr_fexp, fexp, emin.
  cbn [Zdigits2 shr_record_of_loc].
  replace (Z.max (Zpos (digits2_pos P) + E - 53) (3 - 1024 - 53) - E) with n by lia.
  rewrite shr_pos by lia.
  set (mrs := {| shr_m := Zpos P; shr_r := false; shr_s := false |}).
  destruct (shr_nat_m (Z.to_nat n) mrs) as [Hm Hm0]; [simpl; lia |].
  rewrite Z2Nat.id in Hm by lia. cbn [shr_m mrs] in Hm.
  destruct (Nat.iter (Z.to_nat n) shr_1 mrs) as [m' r' s'].
  cbn [shr_m] in *. subst m'.
  assert (Hq : 2 ^ 52 <= Zpos P / 2 ^ n).
  { assert (Hp : 0 < 2 ^ n) by (apply pow2_pos; lia).
    assert (E1 : 2 ^ (Zpos (digits2_pos P) - 1) = 2 ^ 52 * 2 ^ n)
      by (rewrite <- Z.pow_add_r by lia; f_equal; lia).
    apply Z.div_le_lower_bound; lia. }
  set (q := Zpos P / 2 ^ n) in *.
  assert (Hr : exists m2 : positive,
             round_nearest_even q
               (loc_of_shr_record {| shr_m := q; shr_r := r'; shr_s := s' |}) = Zpos m2 /\
             2 ^ 52 <= Zpos m2 < 2 ^ 53).
  { destruct r', s'; cbn [loc_of_shr_record round_nearest_even];
      try destruct (Z.even q).
    all: match goal with
         | |- exists m2, ?z = _ /\ _ =>
             exists (Z.to_pos z); rewrite Z2Pos.id by lia; split; [reflexivity | lia]
         end. }
  destruct Hr as (m2 & -> & Hm2).
  cbn [Zdigits2].
  rewrite (digits2_pos_unique m2 53) by (simpl; lia).
  replace (Z.max (53 + (E + n) - 53) (3 - 1024 - 53) - (E + n)) with 0 by lia.
  cbn [shr shr_record_of_loc shr_m].
  replace (E + n <=? 1024 - 53) with true by (symmetry; apply Z.leb_le; lia).
  exists m2. split; [reflexivity | lia].
Qed.

Lemma pos_iter_xO (m d : positive) :
  Zpos (Pos.iter xO m d) = Zpos m * 2 ^ Zpos d.
Proof.
  induction d as [|d IH] using Pos.peano_ind.
  - cbn [Pos.iter]. change (Zpos m~0) with (2 * Zpos m). simpl (2 ^ 1). lia.
  - rewrite Pos.iter_succ. change (Zpos (Pos.iter xO m d)~0) with (2 * Zpos (Pos.iter xO m d)).
    rewrite IH, Pos2Z.inj_succ, Z.pow_succ_r by lia. lia.
Qed.

Lemma shl_align_shift (mx : positive) (ex ex' : Z) :
  ex' < ex -> shl_align mx ex ex' = (Z.to_pos (Zpos mx * 2 ^ (ex - ex')), ex').
Proof.
  intro H. unfold shl_align.
  destruct (ex' - ex) as [|d|d] eqn:Ed; try lia.
  replace (ex - ex') with (Zpos d) by lia.
  rewrite <- pos_iter_xO. reflexivity.
Qed.

Lemma shl_align_id (mx : positive) (ex ex' : Z) :
  ex <= ex' -> shl_align mx ex ex' = (mx, ex).
Proof.
  intro H. unfold shl_align.
  destruct (ex' - ex) as [|d|d] eqn:Ed; try lia; reflexivity.
Qed.

Lemma binary_round_big (s : bool) (P : positive) (E : Z) :
  53 <= Zpos (digits2_pos P) -> -1074 <= E ->
  binary_round 53 1024 s P E = binary_round_aux 53 1024 s (Zpos P) E loc_Exact.
Proof.
  intros Hd HE. unfold binary_round, fexp, emin.
  rewrite shl_align_id by lia. reflexivity.
Qed.

Lemma div_cross (a b c d : Z) :
  0 < b -> 0 < d -> a * d = c * b -> a / b = c / d.
Proof.
  intros Hb Hd H.
  rewrite <- (Z.div_mul_cancel_r a b d) by lia.
  rewrite H. rewrite (Z.mul_comm b d). apply Z.div_mul_cancel_r; lia.
Qed.

Lemma shl_align_fst (mx : positive) (ex ex' : Z) :
  ex' <= ex -> Zpos (fst (shl_align mx ex ex')) = Zpos mx * 2 ^ (ex - ex').
Proof.
  intro H. destruct (Z.eq_dec ex ex') as [->|Hne].
  - rewrite shl_align_id by lia. rewrite Z.sub_diag. simpl. lia.
  - rewrite shl_align_shift by lia. cbn [fst].
    assert (0 < 2 ^ (ex - ex')) by (apply pow2_pos; lia).
    rewrite Z2Pos.id by lia. reflexivity.
Qed.

(** The promotion of a binary32 value to binary64 is exact. *)
Lemma double_of_float_finite (m : positive) (e : Z) :
  Zpos (digits2_pos m) <= 24 -> -149 <= e <= 104 ->
  exists (Mz : positive) (i : Z),
    double_of_float (S754_finite false m e) = S754_finite false Mz (e - i) /\
    Zpos Mz = Zpos m * 2 ^ i /\ 29 <= i <= 52 /\ 2 ^ 52 <= Zpos Mz < 2 ^ 53.
Proof.
  intros Hd He.
  destruct (digits2_pos_bounds m) as [B1 B2].
  set (d := Zpos (digits2_pos m)) in *.
  assert (Hd1 : 1 <= d) by (unfold d; lia).
  set (i := 53 - d).
  assert (Hp : 0 < 2 ^ i) by (apply pow2_pos; lia).
  assert (Hb : 2 ^ 52 <= Zpos m * 2 ^ i < 2 ^ 53).
  { replace (2 ^ 52) with (2 ^ (d - 1) * 2 ^ i)
      by (rewrite <- Z.pow_add_r by lia; f_equal; lia).
    replace (2 ^ 53) with (2 ^ d * 2 ^ i)
      by (rewrite <- Z.pow_add_r by lia; f_equal; lia).
    split; [apply Z.mul_le_mono_nonneg_r | apply Z.mul_lt_mono_pos_r]; lia. }
  exists (Z.to_pos (Zpos m * 2 ^ i)), i.
  rewrite Z2Pos.id by lia.
  split; [| split; [reflexivity | split; [lia | exact Hb]]].
  unfold double_of_float, binary_round, fexp, emin. fold d.
  replace (Z.max (d + e - 53) (3 - 1024 - 53)) with (e - i) by lia.
  rewrite shl_align_shift by lia.
  replace (e - (e - i)) with i by lia.
  rewrite (@binary_round_aux_exact false (Z.to_pos (Zpos m * 2 ^ i)) (e - i) 0).
  - rewrite Z.pow_0_r, Z.div_1_r, Pos2Z.id, Z.add_0_r. reflexivity.
  - rewrite (digits2_pos_unique (Z.to_pos (Zpos m * 2 ^ i)) 53); [reflexivity |].
    rewrite Z2Pos.id by lia. simpl (53 - 1). exact Hb.
  - lia.
  - lia.
  - rewrite Z.pow_0_r. apply Z.mod_1_r.
Qed.

(** The product with 100.0 is exact. *)
Lemma mul_100_exact (m Mz : positive) (i Ez : Z) :
  Zpos Mz = Zpos m * 2 ^ i -> 29 <= i ->
  2 ^ 52 <= Zpos Mz < 2 ^ 53 -> -1000 <= Ez <= 900 ->
  exists (Mx : positive) (j : Z),
    SFmul64 (double_of_int MAX_VOL) (S754_finite false Mz Ez) =
      S754_finite false Mx (Ez + i + 2 - j) /\
    Zpos Mx = 25 * Zpos m * 2 ^ j /\ 24 <= j /\ 2 ^ 52 <= Zpos Mx < 2 ^ 53.
Proof.
  intros HMz Hi Hb HEz.
  assert (E100 : double_of_int MAX_VOL = S754_finite false 7036874417766400 (-46))
    by reflexivity.
  rewrite E100. unfold SFmul64. cbn [SFmul xorb].
  set (P := (7036874417766400 * Mz)%positive).
  assert (HP : Zpos P = 7036874417766400 * Zpos Mz) by (unfold P; apply Pos2Z.inj_mul).
  destruct (digits2_pos_bounds P) as [B1 B2].
  set (d := Zpos (digits2_pos P)) in *.
  assert (Hlo : 2 ^ 104 <= Zpos P).
  { rewrite HP. change (2 ^ 104) with (2 ^ 52 * 2 ^ 52). 
    apply Z.mul_le_mono_nonneg; simpl; lia. }
  assert (Hhi : Zpos P < 2 ^ 106).
  { rewrite HP. change (2 ^ 106) with (2 ^ 53 * 2 ^ 53).
    apply Z.mul_lt_mono_nonneg; simpl; lia. }
  assert (Hd : 105 <= d <= 106).
  { split.
    - assert (104 < d) by (apply (Z.pow_lt_mono_r_iff 2); lia). lia.
    - assert (d - 1 < 106) by (apply (Z.pow_lt_mono_r_iff 2); lia). lia. }
  set (n := d - 53).
  set (j := 48 + i - n).
  assert (Hpn : 0 < 2 ^ n) by (apply pow2_pos; unfold n; lia).
  assert (Hpj : 0 < 2 ^ j) by (apply pow2_pos; unfold j, n; lia).
  assert (HPj : Zpos P = 25 * Zpos m * 2 ^ j * 2 ^ n).
  { assert (Hpow : 2 ^ 48 * 2 ^ i = 2 ^ j * 2 ^ n)
      by (rewrite <- !Z.pow_add_r by (unfold j, n; lia); f_equal; unfold j; lia).
    rewrite HP, HMz.
    transitivity (25 * Zpos m * (2 ^ 48 * 2 ^ i)); [ring | rewrite Hpow; ring]. }
  assert (Hq : Zpos P / 2 ^ n = 25 * Zpos m * 2 ^ j).
  { rewrite HPj. apply Z.div_mul. lia. }
  assert (Hqb : 2 ^ 52 <= Zpos P / 2 ^ n < 2 ^ 53).
  { assert (E1 : 2 ^ (d - 1) = 2 ^ 52 * 2 ^ n)
      by (rewrite <- Z.pow_add_r by (unfold n; lia); f_equal; unfold n; lia).
    assert (E2 : 2 ^ d = 2 ^ 53 * 2 ^ n)
      by (rewrite <- Z.pow_add_r by (unfold n; lia); f_equal; unfold n; lia).
    split.
    - apply Z.div_le_lower_bound; lia.
    - apply Z.div_lt_upper_bound; lia. }
  exists (Z.to_pos (Zpos P / 2 ^ n)), j.
  rewrite Z2Pos.id by lia.
  split; [| split; [exact Hq | split; [unfold j, n; lia | exact Hqb]]].
  rewrite (@binary_round_aux_exact false P (-46 + Ez) n).
  - f_equal. unfold j. lia.
  - unfold n, d. lia.
  - lia.
  - unfold n. lia.
  - rewrite HPj. apply Z.mod_mul. lia.
Qed.

Lemma ptrdiff_of_double_pos (m : positive) (e : Z) :
  e <= 0 -> Zpos m / 2 ^ (- e) < 2 ^ 63 ->
  ptrdiff_of_double (S754_finite false m e) = Zpos m / 2 ^ (- e).
Proof.
  intros He Hlt.
  assert (Hs : Z.shiftl (Zpos m) e = Zpos m / 2 ^ (- e)).
  { rewrite <- (Z.opp_involutive e) at 1. rewrite Z.shiftl_opp_r.
    apply Z.shiftr_div_pow2. lia. }
  assert (Hp : 0 < 2 ^ (- e)) by (apply pow2_pos; lia).
  assert (H0 : 0 <= Zpos m / 2 ^ (- e)) by (apply Z.div_pos; lia).
  unfold ptrdiff_of_double. cbn [cond_Zopp]. rewrite Hs.
  unfold PTRDIFF_MIN, PTRDIFF_MAX.
  replace (- 2 ^ 63 <=? Zpos m / 2 ^ (- e)) with true
    by (symmetry; apply Z.leb_le; lia).
  replace (Zpos m / 2 ^ (- e) <=? 2 ^ 63 - 1) with true
    by (symmetry; apply Z.leb_le; lia).
  reflexivity.
Qed.

(** Adding 0.5 and truncating: the rounding of the sum, if any, does not
    reach the integer part. *)
Lemma add_half_trunc (m Mx : positive) (e j : Z) :
  Zpos Mx = 25 * Zpos m * 2 ^ j -> 24 <= j ->
  2 ^ 52 <= Zpos Mx < 2 ^ 53 ->
  Zpos m < 2 ^ 24 -> -149 <= e <= 0 -> Zpos m <= 2 ^ (- e) ->
  ptrdiff_of_double (SFadd64 (S754_finite false Mx (e + 2 - j)) double_half) =
    (200 * Zpos m + 2 ^ (- e)) / 2 ^ (1 - e).
Proof.
  intros HMx Hj Hb Hm He Hv.
  assert (Ehalf : double_half = S754_finite false 4503599627370496 (-53)) by reflexivity.
  set (Ex := e + 2 - j).
  assert (Hpj : 0 < 2 ^ j) by (apply pow2_pos; lia).
  assert (Hpe : 0 < 2 ^ (- e)) by (apply pow2_pos; lia).
  (* the exponent of the product *)
  assert (HjU : j <= 48).
  { assert (j + 4 < 53); [| lia].
    apply (Z.pow_lt_mono_r_iff 2); try lia.
    rewrite Z.pow_add_r by lia. change (2 ^ 4) with 16. nia. }
  assert (HExU : Ex <= -46).
  { assert (52 < 5 + (j - e)); [| unfold Ex; lia].
    apply (Z.pow_lt_mono_r_iff 2); try lia.
    rewrite Z.pow_add_r by lia.
    replace (j - e) with (j + - e) by lia. rewrite Z.pow_add_r by lia.
    change (2 ^ 5) with 32. nia. }
  set (ez := Z.min Ex (-53)).
  assert (Hez1 : ez <= Ex) by (unfold ez; lia).
  assert (Hez2 : ez <= -53) by (unfold ez; lia).
  assert (HezL : -200 <= ez) by (unfold ez, Ex; lia).
  (* the aligned sum *)
  set (sum := Zpos Mx * 2 ^ (Ex - ez) + 4503599627370496 * 2 ^ (-53 - ez)).
  assert (Hp1 : 0 < 2 ^ (Ex - ez)) by (apply pow2_pos; lia).
  assert (Hp2 : 0 < 2 ^ (-53 - ez)) by (apply pow2_pos; lia).
  assert (Hpz : 0 < 2 ^ (- ez)) by (apply pow2_pos; lia).
  assert (Hsum : sum = 25 * Zpos m * 2 ^ (e + 2 - ez) + 2 ^ (-1 - ez)).
  { unfold sum. rewrite HMx.
    replace (e + 2 - ez) with (j + (Ex - ez)) by (unfold Ex; lia).
    rewrite Z.pow_add_r by lia.
    replace (-1 - ez) with (52 + (-53 - ez)) by lia.
    rewrite (Z.pow_add_r 2 52) by lia. change (2 ^ 52) with 4503599627370496. ring. }
  assert (Hsumlo : 2 ^ 52 <= sum) by (unfold sum; nia).
  (* its value is 100 v + 1/2 *)
  assert (Hval : sum * 2 ^ (1 - e) = (200 * Zpos m + 2 ^ (- e)) * 2 ^ (- ez)).
  { rewrite Hsum.
    assert (P1 : 2 ^ (e + 2 - ez) * 2 ^ (1 - e) = 8 * 2 ^ (- ez)).
    { rewrite <- Z.pow_add_r by lia. replace (e + 2 - ez + (1 - e)) with (3 + - ez) by lia.
      rewrite Z.pow_add_r by lia. reflexivity. }
    assert (P2 : 2 ^ (-1 - ez) * 2 ^ (1 - e) = 2 ^ (- e) * 2 ^ (- ez)).
    { rewrite <- !Z.pow_add_r by lia. f_equal. lia. }
    transitivity (25 * Zpos m * (2 ^ (e + 2 - ez) * 2 ^ (1 - e))
                  + 2 ^ (-1 - ez) * 2 ^ (1 - e)); [ring |].
    rewrite P1, P2. ring. }
  assert (Hsumhi : sum < 2 ^ (7 - ez)).
  { assert (Hp3 : 0 < 2 ^ (1 - e)) by (apply pow2_pos; lia).
    apply (Z.mul_lt_mono_pos_r (2 ^ (1 - e))); [exact Hp3 |].
    rewrite Hval.
    replace (7 - ez) with (7 + - ez) by lia. rewrite Z.pow_add_r by lia.
    replace (1 - e) with (1 + - e) by lia. rewrite (Z.pow_add_r 2 1) by lia.
    change (2 ^ 7) with 128. change (2 ^ 1) with 2. nia. }
  (* unfolding the addition *)
  unfold SFadd64. rewrite Ehalf. cbn [SFadd cond_Zopp]. fold Ex. fold ez.
  rewrite !shl_align_fst by lia. fold sum.
  destruct sum as [|Sp|Sp] eqn:Esum; try lia.
  cbn [binary_normalize].
  destruct (digits2_pos_bounds Sp) as [B1 B2].
  set (d := Zpos (digits2_pos Sp)) in *.
  assert (Hd1 : 53 <= d).
  { assert (52 < d); [| lia]. apply (Z.pow_lt_mono_r_iff 2); lia. }
  assert (Hd2 : d <= 7 - ez).
  { assert (d - 1 < 7 - ez); [| lia]. apply (Z.pow_lt_mono_r_iff 2); lia. }
  rewrite binary_round_big by (fold d; lia).
  set (n := d - 53).
  assert (Hpn : 0 < 2 ^ n) by (apply pow2_pos; unfold n; lia).
  destruct (Z_le_gt_dec (-48) e) as [Hexact|Htiny].
  - (* the sum is exact *)
    assert (Hmod : Zpos Sp mod 2 ^ n = 0).
    { rewrite Hsum.
      replace (e + 2 - ez) with ((e + 2 - ez - n) + n) by lia.
      replace (-1 - ez) with ((-1 - ez - n) + n) by lia.
      rewrite !Z.pow_add_r by (unfold n; lia).
      replace (25 * Zpos m * (2 ^ (e + 2 - ez - n) * 2 ^ n) + 2 ^ (-1 - ez - n) * 2 ^ n)
        with ((25 * Zpos m * 2 ^ (e + 2 - ez - n) + 2 ^ (-1 - ez - n)) * 2 ^ n) by ring.
      apply Z.mod_mul. lia. }
    rewrite (@binary_round_aux_exact false Sp ez n);
      [| unfold n; fold d; lia | lia | unfold n; lia | exact Hmod].
    assert (Hq : 0 < Zpos Sp / 2 ^ n).
    { apply Z.div_str_pos. split; [lia |].
      apply Z.le_trans with (2 ^ (d - 1)); [| lia].
      apply Z.pow_le_mono_r; unfold n; lia. }
    assert (Hdiv : Zpos Sp / 2 ^ n / 2 ^ (- (ez + n)) = Zpos Sp / 2 ^ (- ez)).
    { assert (0 < 2 ^ (- (ez + n))) by (apply pow2_pos; unfold n; lia).
      rewrite Z.div_div by lia.
      rewrite <- Z.pow_add_r by (unfold n; lia).
      f_equal. f_equal. lia. }
    assert (Hres : Zpos Sp / 2 ^ (- ez) = (200 * Zpos m + 2 ^ (- e)) / 2 ^ (1 - e)).
    { apply div_cross; [lia | apply pow2_pos; lia |].
      rewrite <- Hval. ring. }
    rewrite ptrdiff_of_double_pos.
    + rewrite Z2Pos.id by lia. rewrite Hdiv. exact Hres.
    + unfold n. lia.
    + rewrite Z2Pos.id by lia. rewrite Hdiv.
      apply Z.div_lt_upper_bound; [lia |].
      apply Z.lt_le_trans with (2 ^ (7 - ez)); [lia |].
      replace (7 - ez) with (- ez + 7) by lia. rewrite Z.pow_add_r by lia.
      change (2 ^ 7) with 128. simpl (2 ^ 63). nia.
  - (* the volume is below 2^-24: the sum rounds to a value below 1 *)
    assert (HEx : Ex <= -71) by (unfold Ex; lia).
    assert (Eez : ez = Ex) by (unfold ez; lia).
    assert (Hd : d = - Ex).
    { unfold d. apply digits2_pos_unique. rewrite Hsum, Eez.
      assert (2 ^ 53 <= 2 ^ (- Ex - 1)) by (apply Z.pow_le_mono_r; lia).
      assert (E2 : 2 ^ (- Ex) = 2 * 2 ^ (- Ex - 1)).
      { replace (- Ex) with (Z.succ (- Ex - 1)) at 1 by lia.
        apply Z.pow_succ_r. lia. }
      replace (-1 - Ex) with (- Ex - 1) by lia.
      assert (HMx' : 25 * Zpos m * 2 ^ (e + 2 - Ex) = Zpos Mx).
      { rewrite HMx. f_equal. f_equal. unfold Ex. lia. }
      rewrite HMx'. lia. }
    assert (Hn : 18 <= n) by (unfold n; lia).
    assert (Hq : Zpos Sp / 2 ^ n + 1 < 2 ^ 53).
    { assert (Zpos Sp / 2 ^ n < 2 ^ 52 + 2 ^ 35); [| simpl; simpl in *; lia].
      apply Z.div_lt_upper_bound; [lia |].
      rewrite Hsum, Eez.
      assert (HMx' : 25 * Zpos m * 2 ^ (e + 2 - Ex) = Zpos Mx).
      { rewrite HMx. f_equal. f_equal. unfold Ex. lia. }
      rewrite HMx'.
      replace (-1 - Ex) with (n + 52) by (unfold n; lia).
      rewrite Z.pow_add_r by lia.
      assert (2 ^ 18 <= 2 ^ n) by (apply Z.pow_le_mono_r; lia).
      change (2 ^ 18) with 262144 in *. change (2 ^ 35) with 34359738368.
      change (2 ^ 52) with 4503599627370496. change (2 ^ 53) with 9007199254740992 in *.
      nia. }
    destruct (@binary_round_aux_near false Sp ez n) as (m' & -> & Hm');
      [reflexivity | lia | lia | unfold n; lia | exact Hq |].
    replace (ez + n) with (-53) by (unfold n; lia).
    rewrite ptrdiff_of_double_pos; [| lia | ].
    + rewrite Z.div_small by (simpl; simpl in Hm'; lia).
      symmetry. apply Z.div_small.
      assert (2 ^ 49 <= 2 ^ (- e)) by (apply Z.pow_le_mono_r; lia).
      replace (1 - e) with (Z.succ (- e)) by lia. rewrite Z.pow_succ_r by lia.
      change (2 ^ 49) with 562949953421312 in *. change (2 ^ 24) with 16777216 in *.
      lia.
    + rewrite Z.div_small by (simpl; simpl in Hm'; lia). simpl. lia.
Qed.

(** *** The value computed *)

Lemma Qpower_2_nonpos (e : Z) :
  e <= 0 -> (2 ^ e == 1 # Z.to_pos (2 ^ (- e)))%Q.
Proof.
  intro He. destruct e as [|p|p]; try lia.
  - reflexivity.
  - change (- Zneg p) with (Zpos p).
    change 2%Q with (Zpos 2 # 1)%Q.
    rewrite Qpower_decomp_neg_pos.
    rewrite Z.pow_1_l by lia.
    change 2 with (Zpos 2). rewrite <- Pos2Z.inj_pow.
    reflexivity.
Qed.

Lemma round_half_up_dyadic (m : positive) (e : Z) :
  e <= 0 ->
  round_half_up (100 * float_value (S754_finite false m e)) =
    (200 * Zpos m + 2 ^ (- e)) / 2 ^ (1 - e).
Proof.
  intro He.
  assert (Hp : 0 < 2 ^ (- e)) by (apply pow2_pos; lia).
  unfold round_half_up, float_value.
  assert (E : (100 * (1 * inject_Z (Zpos m) * 2 ^ e) + (1 # 2) ==
               (200 * Zpos m + 2 ^ (- e)) # Z.to_pos (2 ^ (1 - e)))%Q).
  { rewrite (@Qpower_2_nonpos e He).
    replace (1 - e) with (Z.succ (- e)) by lia. rewrite Z.pow_succ_r by lia.
    unfold Qeq, Qplus, Qmult, inject_Z. cbn [Qnum Qden].
    rewrite !Pos2Z.inj_mul, !Z2Pos.id by lia. ring. }
  rewrite (Qfloor_comp _ _ E).
  unfold Qfloor. rewrite Z2Pos.id by (apply pow2_pos; lia). reflexivity.
Qed.

(** The clamp: whatever the [float], NaN and infinities included, the
    position lies between 0 and [MAX_VOL]. *)
Lemma sliderVolume_range (v : float) : 0 <= sliderVolume v <= MAX_VOL.
Proof.
  unfold sliderVolume, MAX_VOL.
  destruct (Z.ltb_spec (ptrdiff_of_double
              (SFadd64 (SFmul64 (double_of_int 100) (double_of_float v)) double_half)) 0);
    [lia |].
  destruct (Z.gtb_spec (ptrdiff_of_double
              (SFadd64 (SFmul64 (double_of_int 100) (double_of_float v)) double_half)) 100);
    lia.
Qed.

Lemma float_value_le_1 (m : positive) (e : Z) :
  (float_value (S754_finite false m e) <= 1)%Q -> e <= 0 /\ Zpos m <= 2 ^ (- e).
Proof.
  unfold float_value. intro H.
  destruct (Z_le_gt_dec e 0) as [He|He].
  - split; [exact He |].
    assert (Hp : 0 < 2 ^ (- e)) by (apply pow2_pos; lia).
    rewrite (@Qpower_2_nonpos e He) in H.
    unfold Qle, Qmult, inject_Z in H. cbn [Qnum Qden] in H.
    rewrite !Pos.mul_1_l, Z2Pos.id in H by lia. lia.
  - exfalso.
    assert (Hp : 2 <= 2 ^ e).
    { change 2 with (2 ^ 1) at 1. apply Z.pow_le_mono_r; lia. }
    change 2%Q with (inject_Z 2) in H.
    rewrite <- Zpower_Qpower in H by lia.
    unfold Qle, Qmult, inject_Z in H. cbn [Qnum Qden] in H. nia.
Qed.

Lemma valid_binary32_finite (s : bool) (m : positive) (e : Z) :
  valid_binary 24 128 (S754_finite s m e) = true ->
  Zpos (digits2_pos m) <= 24 /\ -149 <= e <= 104.
Proof.
  unfold valid_binary, bounded, canonical_mantissa, fexp, emin.
  intro H. apply andb_prop in H. destruct H as [H1 H2].
  apply Z.eqb_eq in H1. apply Z.leb_le in H2. lia.
Qed.

(** C9, as amended.  For any [float] at all, a NaN or an infinity
    included, the slider position lies between 0 and [MAX_VOL].  For every
    binary32 volume in the range from 0.0 to 1.0 it is 100 times the exact
    value of the [float], rounded to the nearest integer with halves up:
    none of the three binary64 roundings of the computation changes the
    result, and neither clamp applies. *)
Theorem sliderVolume_round_half_up (v : float) :
  0 <= sliderVolume v <= MAX_VOL /\
  (valid_binary 24 128 v = true -> is_finite v = true ->
   (0 <= float_value v)%Q -> (float_value v <= 1)%Q ->
   sliderVolume v = round_half_up (100 * float_value v)).
Proof.
  split; [apply sliderVolume_range |].
  intros Hvalid Hfin H0 H1.
  destruct v as [s| s | |s m e]; try discriminate Hfin.
  - destruct s; reflexivity.
  - destruct s.
    + exfalso. unfold float_value, Qle, Qmult, inject_Z in H0. cbn [Qnum Qden] in H0.
      assert (0 < Qnum (2 ^ e))%Z.
      { assert (Hq : (0 < 2 ^ e)%Q) by (apply Qpower_0_lt; reflexivity).
        unfold Qlt in Hq. cbn [Qnum Qden] in Hq. lia. }
      nia.
    + destruct (@valid_binary32_finite _ _ _ Hvalid) as [Hd He].
      destruct (@float_value_le_1 _ _ H1) as [He0 Hm].
      rewrite round_half_up_dyadic by exact He0.
      destruct (@double_of_float_finite m e Hd He) as (Mz & i & EA & HMz & Hi & HbA).
      destruct (@mul_100_exact m Mz i (e - i) HMz) as (Mx & j & EB & HMx & Hj & HbB);
        [lia | exact HbA | lia |].
      assert (Hm24 : Zpos m < 2 ^ 24).
      { destruct (digits2_pos_bounds m) as [_ B].
        apply Z.lt_le_trans with (2 ^ Zpos (digits2_pos m)); [exact B |].
        apply Z.pow_le_mono_r; lia. }
      pose proof (@add_half_trunc m Mx e j HMx Hj HbB Hm24) as EC.
      unfold sliderVolume. rewrite EA, EB.
      replace (e - i + i + 2 - j) with (e + 2 - j) by lia.
      rewrite EC by lia.
      set (r := (200 * Zpos m + 2 ^ (- e)) / 2 ^ (1 - e)).
      assert (Hr : 0 <= r <= 100).
      { assert (Hp : 0 < 2 ^ (- e)) by (apply pow2_pos; lia).
        assert (E2 : 2 ^ (1 - e) = 2 * 2 ^ (- e)).
        { replace (1 - e) with (Z.succ (- e)) by lia. apply Z.pow_succ_r. lia. }
        unfold r. rewrite E2. split.
        - apply Z.div_pos; lia.
        - assert ((200 * Zpos m + 2 ^ (- e)) / (2 * 2 ^ (- e)) < 101); [| lia].
          apply Z.div_lt_upper_bound; lia. }
      destruct (Z.ltb_spec r 0); [lia |].
      unfold MAX_VOL. destruct (Z.gtb_spec r 100); [lia | reflexivity].
Qed.

Lemma sliderVolume_round_half_up_witness :
  valid_binary 24 128 f_0_505_succ = true /\
  is_finite f_0_505_succ = true /\
  (0 <= float_value f_0_505_succ)%Q /\
  (float_value f_0_505_succ <= 1)%Q /\
  sliderVolume f_0_505_succ = round_half_up (100 * float_value f_0_505_succ) /\
  0 <= sliderVolume f_0_505_succ <= MAX_VOL.
Proof.
  assert (H1 : valid_binary 24 128 f_0_505_succ = true) by reflexivity.
  assert (H2 : is_finite f_0_505_succ = true) by reflexivity.
  assert (H3 : (0 <= float_value f_0_505_succ)%Q) by (vm_compute; discriminate).
  assert (H4 : (float_value f_0_505_succ <= 1)%Q) by (vm_compute; discriminate).
  split; [exact H1 |]. split; [exact H2 |]. split; [exact H3 |]. split; [exact H4 |].
  destruct (sliderVolume_round_half_up f_0_505_succ) as [Hrange Hround].
  split; [exact (Hround H1 H2 H3 H4) | exact Hrange].
Defined.

(** The values the specification names: 0.0 and 1.0 give 0 and 100, the
    exactly representable halves are rounded up, and of the two binary32
    neighbours of 0.505 the lower gives 50 and the upper 51. *)
Lemma sliderVolume_examples :
  sliderVolume f_0_0 = 0 /\
  sliderVolume f_1_0 = 100 /\
  sliderVolume (S754_finite false 1 (-3)) = 13 /\
  sliderVolume f_0_42 = 42 /\
  sliderVolume f_0_505 = 50 /\
  sliderVolume f_0_505_succ = 51.
Proof. repeat split; vm_compute; reflexivity. Qed.

(** C9, the claim as first stated, fails.  0.505 is not a binary32 value;
    it lies strictly between two neighbouring ones, nearer to the lower,
    which is therefore the [float] that the scalar 0.505 is.  Rounding
    100 * 0.505 half up would give 51, but the slider position of that
    [float] is 50. *)
Lemma sliderVolume_0_505_is_50 :
  valid_binary 24 128 f_0_505 = true /\
  valid_binary 24 128 f_0_505_succ = true /\
  (float_value f_0_505 < 505 # 1000)%Q /\
  (505 # 1000 < float_value f_0_505_succ)%Q /\
  ((505 # 1000) - float_value f_0_505 < float_value f_0_505_succ - (505 # 1000))%Q /\
  round_half_up (100 * (505 # 1000)) = 51 /\
  sliderVolume f_0_505 = 50.
Proof. repeat split; vm_compute; reflexivity. Qed.

(** * Further properties of the program *)

(** ** AudioDevice *)

(** X1. The constructor of [AudioDevice] asks the endpoint for its
    identifier, its property store and its name, in this order, and stops
    at the first call that fails with the error of that call; it builds
    the device, with the identifier and the name of the endpoint, exactly
    when the three calls succeed. *)
Theorem AudioDevice_new_calls (itemOffset : nat) (pEndpoint : IMMDevice) (w : World) :
  let r := AudioDevice_new itemOffset pEndpoint w in
  let failed c := FAILED (w_hr w c) in
  fst r =
    (if failed (GetId pEndpoint)
     then Throw "Unable to retrieve audio endpoint ID."
     else if failed (OpenPropertyStore pEndpoint)
     then Throw "Unable to open device property storage."
     else if failed (GetValue pEndpoint)
     then Throw "Unable to get name of audio endpoint."
     else Ok {| m_iItemOffset := itemOffset; m_pEndpoint := pEndpoint;
                m_wsId := fst (nth pEndpoint (w_endpoints w) ([], []));
                m_wsName := snd (nth pEndpoint (w_endpoints w) ([], [])) |}) /\
  only_logged
    (GetId pEndpoint ::
     (if failed (GetId pEndpoint) then []
      else OpenPropertyStore pEndpoint ::
           (if failed (OpenPropertyStore pEndpoint) then [] else [GetValue pEndpoint])))
    w (snd r).
Proof.
  cbv zeta. unfold AudioDevice_new. unfold_monad. unfold platform, only_logged. simpl.
  destruct (FAILED (w_hr w (GetId pEndpoint))); simpl;
    [repeat split; reflexivity |].
  destruct (FAILED (w_hr w (OpenPropertyStore pEndpoint))); simpl;
    [rewrite <- ?app_assoc; repeat split; reflexivity |].
  destruct (FAILED (w_hr w (GetValue pEndpoint))); simpl;
    rewrite <- ?app_assoc; repeat split; reflexivity.
Qed.


(** ** The constructor, completely *)

Lemma only_logged_refl (w : World) : only_logged [] w w.
Proof. unfold only_logged. simpl. rewrite app_nil_r. repeat split; reflexivity. Qed.

Lemma only_logged_trans (cs1 cs2 : list Call) (w w1 w2 : World) :
  only_logged cs1 w w1 -> only_logged cs2 w1 w2 -> only_logged (cs1 ++ cs2) w w2.
Proof.
  unfold only_logged.
  intros (A1 & A2 & A3 & A4 & A5 & A6) (B1 & B2 & B3 & B4 & B5 & B6).
  repeat split; try congruence.
  rewrite B6, A6, map_app, app_assoc. reflexivity.
Qed.

Lemma only_logged_one (c : Call) (w : World) :
  only_logged [c] w (log_event {| ev_call := c; ev_linkActive := false |} w).
Proof. unfold only_logged. simpl. repeat split; reflexivity. Qed.

(** [AudioDevice::AudioDevice] asks for the identifier, the property store
    and the name, and stops at the first refusal. *)
Lemma AudioDevice_new_spec (i : nat) (p : IMMDevice) (w : World) :
  if negb (FAILED (w_hr w (GetId p))) && negb (FAILED (w_hr w (OpenPropertyStore p)))
     && negb (FAILED (w_hr w (GetValue p)))
  then exists w',
      AudioDevice_new i p w =
        (Ok {| m_iItemOffset := i; m_pEndpoint := p;
               m_wsId := fst (nth p (w_endpoints w) ([], []));
               m_wsName := snd (nth p (w_endpoints w) ([], [])) |}, w') /\
      only_logged [GetId p; OpenPropertyStore p; GetValue p] w w'
  else exists what w', AudioDevice_new i p w = (Throw what, w').
Proof.
  unfold AudioDevice_new. unfold_monad. unfold platform. simpl.
  destruct (FAILED (w_hr w (GetId p))); simpl; [eauto |].
  destruct (FAILED (w_hr w (OpenPropertyStore p))); simpl; [eauto |].
  destruct (FAILED (w_hr w (GetValue p))); simpl; [eauto |].
  eexists. split; [reflexivity |].
  unfold only_logged. simpl. rewrite <- !app_assoc. repeat split; reflexivity.
Qed.

Lemma forallb_pointwise (A : Type) (f g : A -> bool) (l : list A) :
  (forall x, f x = g x) -> forallb f l = forallb g l.
Proof. intro H. induction l as [|x l IH]; simpl; [reflexivity | rewrite H, IH; reflexivity]. Qed.

Lemma endpoint_ok_ext (w w0 : World) (i : nat) :
  w_hr w0 = w_hr w -> endpoint_ok w0 i = endpoint_ok w i.
Proof. unfold endpoint_ok. intros ->. reflexivity. Qed.

Lemma collect_spec (indices : list nat) :
  forall (acc : list AudioDevice) (w : World),
    if forallb (endpoint_ok w) indices
    then exists w',
        collect indices acc w =
          (Ok (acc ++ map (fun i => {| m_iItemOffset := i; m_pEndpoint := i;
                                       m_wsId := fst (nth i (w_endpoints w) ([], []));
                                       m_wsName := snd (nth i (w_endpoints w) ([], [])) |})
                          indices), w') /\
        only_logged
          (flat_map (fun i => [Item i; GetId i; OpenPropertyStore i; GetValue i]) indices)
          w w'
    else exists what w', collect indices acc w = (Throw what, w').
Proof.
  induction indices as [|i indices IH]; intros acc w.
  - simpl. exists w. rewrite app_nil_r. split; [reflexivity | apply only_logged_refl].
  - set (w0 := log_event {| ev_call := Item i; ev_linkActive := false |} w).
    assert (Estep :
      collect (i :: indices) acc w =
        if FAILED (w_hr w (Item i))
        then (Throw "Unable to retrieve an audio endpoint.", w0)
        else match AudioDevice_new i i w0 with
             | (Ok device, w1) => collect indices (acc ++ [device]) w1
             | (Throw what, w1) => (Throw what, w1)
             end).
    { cbn [collect]. unfold bind at 1. unfold com at 1. unfold platform.
      cbn [answer effect]. fold w0.
      unfold bind at 1. unfold THROW_IF_COM_FAILED at 1.
      destruct (FAILED (w_hr w (Item i))); reflexivity. }
    rewrite Estep. clear Estep.
    cbn [forallb flat_map map]. unfold endpoint_ok at 1.
    destruct (FAILED (w_hr w (Item i))) eqn:F0; cbn [negb andb]; [eauto |].
    assert (L0 : only_logged [Item i] w w0) by apply only_logged_one.
    pose proof (AudioDevice_new_spec i i w0) as HA.
    assert (Ehr : w_hr w0 = w_hr w) by reflexivity.
    assert (Eep : w_endpoints w0 = w_endpoints w) by reflexivity.
    rewrite Ehr, Eep in HA.
    destruct (negb (FAILED (w_hr w (GetId i))) &&
              negb (FAILED (w_hr w (OpenPropertyStore i))) &&
              negb (FAILED (w_hr w (GetValue i)))) eqn:FA; cbn [andb].
    + destruct HA as (w1 & EA & L1). rewrite EA.
      specialize (IH (acc ++ [ {| m_iItemOffset := i; m_pEndpoint := i;
                                  m_wsId := fst (nth i (w_endpoints w) ([], []));
                                  m_wsName := snd (nth i (w_endpoints w) ([], [])) |} ]) w1).
      assert (Ehr1 : w_hr w1 = w_hr w) by (destruct L1 as (A & _); congruence).
      assert (Eep1 : w_endpoints w1 = w_endpoints w)
        by (destruct L1 as (_ & A & _); congruence).
      rewrite (forallb_pointwise _ (endpoint_ok w1) (endpoint_ok w)) in IH
        by (intro; apply endpoint_ok_ext; exact Ehr1).
      destruct (forallb (endpoint_ok w) indices).
      * destruct IH as (w' & EC & LC). exists w'. split.
        -- rewrite EC. rewrite <- app_assoc. rewrite Eep1. reflexivity.
        -- apply (only_logged_trans [Item i] _ w w0 w' L0).
           apply (only_logged_trans [GetId i; OpenPropertyStore i; GetValue i] _ w0 w1 w' L1).
           exact LC.
      * exact IH.
    + destruct HA as (what & w1 & EA). rewrite EA. eauto.
Qed.

Lemma AudioDeviceManager_new_spec
  (towlower : wchar_t -> wchar_t)
  (std_sort : (AudioDevice -> AudioDevice -> bool) -> list AudioDevice -> list AudioDevice)
  (processGUID : GUID) (w : World) :
  let n := length (w_endpoints w) in
  let sorted := std_sort (name_less towlower) (discovered w) in
  let all_well :=
    negb (processGUID =? GUID_NULL) && enumeration_ok w && negb (Nat.eqb n 0)
    && Nat.eqb n (length sorted) in
  match AudioDeviceManager_new towlower std_sort processGUID w with
  | (Ok m, w') =>
      all_well = true /\
      m = {| m_exitCode := 0; m_processGUID := processGUID;
             m_hDialog := NULL; m_iMuteCheckboxID := 0; m_iVolumeSliderID := 0;
             m_collectionCount := n; m_audioDevices := sorted;
             m_bLinkActive := false;
             m_iMasterDeviceIdx := -1; m_iSlaveDeviceIdx := -1;
             m_pMasterEndptVol := None; m_pSlaveEndptVol := None |} /\
      only_logged (enumeration_calls n) w w'
  | (Throw _, _) => all_well = false
  end.
Proof.
  cbv zeta. unfold AudioDeviceManager_new, enumeration_ok.
  unfold bind at 1.
  destruct (processGUID =? GUID_NULL); cbn [negb andb]; [reflexivity |].
  unfold ret at 1.
  unfold bind at 1. unfold com at 1. unfold platform. cbn [answer effect].
  set (w0 := log_event {| ev_call := CoCreateInstance; ev_linkActive := false |} w).
  unfold bind at 1. unfold THROW_IF_COM_FAILED at 1.
  destruct (FAILED (w_hr w CoCreateInstance)); cbn [negb andb]; [reflexivity |].
  unfold ret at 1.
  unfold bind at 1. unfold com at 1. unfold platform. cbn [answer effect].
  set (w1 := log_event {| ev_call := EnumAudioEndpoints; ev_linkActive := false |} w0).
  change (w_hr w0 EnumAudioEndpoints) with (w_hr w EnumAudioEndpoints).
  unfold bind at 1. unfold THROW_IF_COM_FAILED at 1.
  destruct (FAILED (w_hr w EnumAudioEndpoints)); cbn [negb andb]; [reflexivity |].
  unfold ret at 1.
  unfold bind at 1. unfold com at 1. unfold platform. cbn [answer effect].
  set (w2 := log_event {| ev_call := GetCount; ev_linkActive := false |} w1).
  change (w_hr w1 GetCount) with (w_hr w GetCount).
  unfold bind at 1.
  change (w_endpoints w2) with (w_endpoints w).
  unfold bind at 1. unfold THROW_IF_COM_FAILED at 1.
  destruct (FAILED (w_hr w GetCount)); cbn [negb andb]; [reflexivity |].
  unfold ret at 1.
  unfold bind at 1.
  destruct (Nat.eqb (length (w_endpoints w)) 0) eqn:E0; cbn [negb andb].
  { rewrite andb_false_r. reflexivity. }
  unfold ret at 1.
  unfold bind at 1.
  pose proof (collect_spec (seq 0 (length (w_endpoints w))) [] w2) as HC.
  rewrite (forallb_pointwise _ (endpoint_ok w2) (endpoint_ok w)) in HC
    by (intro; apply endpoint_ok_ext; reflexivity).
  change (w_endpoints w2) with (w_endpoints w) in HC.
  destruct (forallb (endpoint_ok w) (seq 0 (length (w_endpoints w)))); cbn [andb].
  - destruct HC as (w3 & EC & LC). rewrite EC. cbn [app].
    fold (discovered w).
    unfold bind at 1.
    destruct (Nat.eqb (length (w_endpoints w))
                (length (std_sort (name_less towlower) (discovered w)))) eqn:EL;
      cbn [negb].
    + unfold ret. split; [reflexivity |]. split; [reflexivity |].
      unfold enumeration_calls.
      apply (only_logged_trans [CoCreateInstance; EnumAudioEndpoints; GetCount] _ w w2 w3);
        [| exact LC].
      unfold only_logged. simpl. rewrite <- !app_assoc. repeat split; reflexivity.
    + reflexivity.
  - destruct HC as (what & w3 & EC). rewrite EC. reflexivity.
Qed.

(** X2. The constructor returns a controller exactly when the GUID is not
    GUID_NULL, every call of the enumeration succeeds, the platform has at
    least one endpoint and the sorted vector has as many elements as the
    collection; in every other case it throws. *)
Theorem AudioDeviceManager_new_succeeds_iff
  (towlower : wchar_t -> wchar_t)
  (std_sort : (AudioDevice -> AudioDevice -> bool) -> list AudioDevice -> list AudioDevice)
  (processGUID : GUID) (w : World) :
  is_Ok (fst (AudioDeviceManager_new towlower std_sort processGUID w)) =
    negb (processGUID =? GUID_NULL) && enumeration_ok w
    && negb (Nat.eqb (length (w_endpoints w)) 0)
    && Nat.eqb (length (w_endpoints w))
         (length (std_sort (name_less towlower) (discovered w))).
Proof.
  pose proof (AudioDeviceManager_new_spec towlower std_sort processGUID w) as H.
  cbv zeta in H.
  destruct (AudioDeviceManager_new towlower std_sort processGUID w) as [[m|what] w'];
    simpl.
  - destruct H as (H & _). symmetry. exact H.
  - symmetry. exact H.
Qed.

(** X3. A controller that has been constructed is Unlinked, has exit code
    0 and no dialog, keeps the GUID it was given, which is not GUID_NULL,
    and its catalog has as many devices as the platform has endpoints, at
    least one.  The construction has made the calls of the enumeration,
    each endpoint queried once in collection order, and has changed nothing
    else on the platform. *)
Theorem AudioDeviceManager_new_state
  (towlower : wchar_t -> wchar_t)
  (std_sort : (AudioDevice -> AudioDevice -> bool) -> list AudioDevice -> list AudioDevice)
  (processGUID : GUID) (w w' : World) (m : AudioDeviceManager) :
  AudioDeviceManager_new towlower std_sort processGUID w = (Ok m, w') ->
  Unlinked m /\ getExitCode m = 0 /\ m_hDialog m = NULL /\
  m_processGUID m = processGUID /\ processGUID <> GUID_NULL /\
  length (getAudioDevices m) = length (w_endpoints w) /\
  m_collectionCount m = length (w_endpoints w) /\
  (1 <= length (getAudioDevices m))%nat /\
  only_logged (enumeration_calls (length (w_endpoints w))) w w'.
Proof.
  intro E.
  pose proof (AudioDeviceManager_new_spec towlower std_sort processGUID w) as H.
  cbv zeta in H. rewrite E in H. destruct H as (Hall & -> & Hlog).
  apply andb_prop in Hall. destruct Hall as [Hall Hlen].
  apply andb_prop in Hall. destruct Hall as [Hall Hn].
  apply andb_prop in Hall. destruct Hall as [Hg _].
  apply Nat.eqb_eq in Hlen. apply negb_true_iff in Hn. apply Nat.eqb_neq in Hn.
  apply negb_true_iff in Hg. apply Z.eqb_neq in Hg.
  unfold Unlinked, getExitCode, getAudioDevices.
  cbn [m_bLinkActive m_iMasterDeviceIdx m_iSlaveDeviceIdx m_pMasterEndptVol
       m_pSlaveEndptVol m_exitCode m_hDialog m_processGUID m_audioDevices
       m_collectionCount].
  split; [repeat split; reflexivity |].
  repeat (split; [first [reflexivity | assumption | lia] |]).
  exact Hlog.
Qed.

Lemma AudioDeviceManager_new_state_witness :
  let r := AudioDeviceManager_new towlower_C insertion_sort 7 world_ok in
  exists m : AudioDeviceManager,
    fst r = Ok m /\ Unlinked m /\ length (getAudioDevices m) = 3%nat /\
    map ev_call (w_trace (snd r)) = enumeration_calls 3.
Proof.
  cbv zeta.
  destruct (AudioDeviceManager_new towlower_C insertion_sort 7 world_ok)
    as [[m|what] w'] eqn:E; [| vm_compute in E; discriminate E].
  destruct (AudioDeviceManager_new_state towlower_C insertion_sort 7 world_ok w' m E)
    as (U & _ & _ & _ & _ & Hlen & _ & _ & Hlog).
  exists m. split; [reflexivity |]. split; [exact U |]. split; [exact Hlen |].
  destruct Hlog as (_ & _ & _ & _ & _ & Htrace).
  simpl. rewrite Htrace. simpl. reflexivity.
Defined.

(** X4. When [std::sort] keeps the promise of the C++ standard and the
    case mapping leaves the terminating zero alone, the size check after
    the sort never decides the outcome: the constructor succeeds exactly
    when the GUID is not GUID_NULL, every call of the enumeration succeeds
    and there is at least one endpoint. *)
Theorem AudioDeviceManager_new_sort_keeps_count
  (towlower : wchar_t -> wchar_t)
  (std_sort : (AudioDevice -> AudioDevice -> bool) -> list AudioDevice -> list AudioDevice)
  (processGUID : GUID) (w : World) :
  towlower 0 = 0 ->
  sorts std_sort ->
  is_Ok (fst (AudioDeviceManager_new towlower std_sort processGUID w)) =
    negb (processGUID =? GUID_NULL) && enumeration_ok w
    && negb (Nat.eqb (length (w_endpoints w)) 0).
Proof.
  intros H0 Hsort.
  destruct (Hsort (name_less towlower) (discovered w)
              (@name_less_strict_weak_order towlower H0)) as [Hperm _].
  apply Permutation_length in Hperm.
  assert (Hlen : Nat.eqb (length (w_endpoints w))
                   (length (std_sort (name_less towlower) (discovered w))) = true).
  { apply Nat.eqb_eq. rewrite <- Hperm. unfold discovered.
    rewrite length_map, length_seq. reflexivity. }
  pose proof (AudioDeviceManager_new_spec towlower std_sort processGUID w) as H.
  cbv zeta in H. rewrite Hlen, andb_true_r in H.
  destruct (AudioDeviceManager_new towlower std_sort processGUID w) as [[m|what] w'];
    simpl.
  - destruct H as (H & _). symmetry. exact H.
  - symmetry. exact H.
Qed.

Lemma AudioDeviceManager_new_sort_keeps_count_witness :
  is_Ok (fst (AudioDeviceManager_new towlower_C insertion_sort 7
                (world_failing (fun c => match c with GetValue 2 => true | _ => false end))))
  = false.
Proof.
  rewrite (AudioDeviceManager_new_sort_keeps_count towlower_C insertion_sort 7 _
             eq_refl insertion_sort_sorts).
  vm_compute. reflexivity.
Defined.

(** ** linkDevices, completely *)

Ltac rewrite_failed :=
  repeat match goal with
         | H : FAILED _ = _ |- _ => rewrite H; clear H
         | H : (_ <? 0) = _ |- _ => rewrite H; clear H
         end.

(** X5. With two distinct valid catalog positions, [linkDevices] succeeds
    exactly when the seven calls it needs succeed: opening the two handles,
    registering the callback on the master, reading the master's mute state
    and volume, and writing both to the slave.  It then leaves the
    controller Linked on the handles of the two devices with the two
    indices stored, the callback registered on the master, and the slave at
    the volume and mute state the master had. *)
Theorem linkDevices_success
  (masterIdx slaveIdx : Z) (s : Sys) (dm ds : AudioDevice) :
  masterIdx <> slaveIdx -> 0 <= masterIdx -> 0 <= slaveIdx ->
  nth_error (getAudioDevices (mgr s)) (Z.to_nat masterIdx) = Some dm ->
  nth_error (getAudioDevices (mgr s)) (Z.to_nat slaveIdx) = Some ds ->
  let hm := m_pEndpoint dm in
  let hs := m_pEndpoint ds in
  let guid := m_processGUID (mgr s) in
  let v := w_volume (world s) hm in
  let b := w_mute (world s) hm in
  let ok c := negb (FAILED (w_hr (world s) c)) in
  let s' := snd (linkDevices masterIdx slaveIdx s) in
  is_Ok (fst (linkDevices masterIdx slaveIdx s)) =
    ok (Activate hm) && ok (Activate hs) && ok (RegisterControlChangeNotify hm)
    && ok (GetMute hm) && ok (GetMasterVolumeLevelScalar hm)
    && ok (SetMasterVolumeLevelScalar hs v guid) && ok (SetMute hs b guid) /\
  (is_Ok (fst (linkDevices masterIdx slaveIdx s)) = true ->
   Linked (mgr s') hm hs /\
   getMasterDeviceIdx (mgr s') = masterIdx /\ getSlaveDeviceIdx (mgr s') = slaveIdx /\
   In hm (w_subscribed (world s')) /\
   w_volume (world s') hs = v /\ w_mute (world s') hs = b).
Proof.
  destruct s as [m w]. destruct m as [exitCode guid hDlg muteID sliderID count devices active mIdx sIdx pMaster pSlave].
  destruct w as [hr endpoints volume mute subscribed trace]. unfold getAudioDevices. simpl.
  intros Hne Hm Hs Em Es.
  apply Z.eqb_neq in Hne. apply Z.ltb_ge in Hm. apply Z.ltb_ge in Hs.
  unfold_methods. unfold Linked, getMasterDeviceIdx, getSlaveDeviceIdx. simpl.
  destruct active, pMaster; simpl;
    rewrite ?Hne, ?Hm, ?Hs; simpl; rewrite ?Em, ?Es; simpl.
  all: link_cases tt.
  all: repeat match goal with
              | H : Some _ = Some _ |- _ => injection H as H; subst
              | H : None = Some _ |- _ => discriminate H
              end.
  all: simpl; rewrite ?Nat.eqb_refl; simpl; rewrite_failed; simpl.
  all: split; [reflexivity | intro E; try discriminate E].
  all: unfold update; rewrite ?Nat.eqb_refl; simpl.
  all: repeat split; try reflexivity; try (left; reflexivity).
Qed.

Lemma linkDevices_success_witness :
  let s := sys_fresh 500 world_ok in
  fst (linkDevices 1 0 s) = Ok tt /\
  Linked (mgr (snd (linkDevices 1 0 s))) 0%nat 2%nat /\
  w_volume (world (snd (linkDevices 1 0 s))) 2%nat = f_0_5.
Proof.
  cbv zeta.
  pose proof (linkDevices_success 1 0 (sys_fresh 500 world_ok)
                {| m_iItemOffset := 0; m_pEndpoint := 0; m_wsId := L "{0}";
                   m_wsName := L "Speakers" |}
                {| m_iItemOffset := 2; m_pEndpoint := 2; m_wsId := L "{2}";
                   m_wsName := L "Headphones" |}
                ltac:(lia) ltac:(lia) ltac:(lia) eq_refl eq_refl) as H.
  cbv zeta in H. destruct H as (H1 & H2).
  split; [vm_compute; reflexivity |].
  destruct (H2 ltac:(vm_compute; reflexivity)) as (A & _ & _ & _ & B & _).
  split; [exact A | exact B].
Defined.

(** X6. A request to link two different positions of which one is not a
    position of the catalog throws the error of [getDevice]; no handle is
    opened and no callback registered: the only call made is the one that
    [unlinkDevices] makes, and the controller ends Unlinked, so a link that
    existed is gone. *)
Theorem linkDevices_invalid_index (masterIdx slaveIdx : Z) (s : Sys) :
  masterIdx <> slaveIdx ->
  ~ (0 <= masterIdx < Z.of_nat (length (getAudioDevices (mgr s))) /\
     0 <= slaveIdx < Z.of_nat (length (getAudioDevices (mgr s)))) ->
  exists what,
    fst (linkDevices masterIdx slaveIdx s) = Throw what /\
    (what = "Negative device number requested."%string \/
     what = "Invalid device number requested."%string) /\
    Unlinked (mgr (snd (linkDevices masterIdx slaveIdx s))) /\
    new_calls (linkDevices masterIdx slaveIdx) s = new_calls unlinkDevices s.
Proof.
  destruct s as [m w]. destruct m as [exitCode guid hDlg muteID sliderID count devices active mIdx sIdx pMaster pSlave].
  destruct w as [hr endpoints volume mute subscribed trace]. unfold getAudioDevices. simpl.
  intros Hne Hbad. apply Z.eqb_neq in Hne.
  unfold new_calls, new_events, Unlinked.
  unfold_methods. simpl.
  destruct active, pMaster; simpl; rewrite ?Hne; simpl.
  all: destruct (masterIdx <? 0) eqn:Hm; simpl;
    [eexists; split; [reflexivity |]; split; [left; reflexivity |];
     split; [repeat split; reflexivity | reflexivity] |].
  all: destruct (nth_error devices (Z.to_nat masterIdx)) eqn:Em; simpl;
    [| eexists; split; [reflexivity |]; split; [right; reflexivity |];
       split; [repeat split; reflexivity | reflexivity]].
  all: destruct (slaveIdx <? 0) eqn:Hs; simpl;
    [eexists; split; [reflexivity |]; split; [left; reflexivity |];
     split; [repeat split; reflexivity | reflexivity] |].
  all: destruct (nth_error devices (Z.to_nat slaveIdx)) eqn:Es; simpl;
    [| eexists; split; [reflexivity |]; split; [right; reflexivity |];
       split; [repeat split; reflexivity | reflexivity]].
  all: exfalso; apply Hbad;
    assert (Z.to_nat masterIdx < length devices)%nat
      by (apply nth_error_Some; congruence);
    assert (Z.to_nat slaveIdx < length devices)%nat
      by (apply nth_error_Some; congruence);
    lia.
Qed.

Lemma linkDevices_invalid_index_witness :
  exists what,
    fst (linkDevices 1 3 (sys_linked 500 world_ok)) = Throw what /\
    Unlinked (mgr (snd (linkDevices 1 3 (sys_linked 500 world_ok)))).
Proof.
  destruct (linkDevices_invalid_index 1 3 (sys_linked 500 world_ok)) as (what & E & _ & U & _).
  - lia.
  - simpl. lia.
  - exists what. split; [exact E | exact U].
Defined.

(** ** Notifications *)

(** What the handler leaves alone: everything of the controller but the
    exit code, the subscriptions, and the answers and the endpoints of the
    platform. *)
Lemma onVolumeCallback_frame (pNotify : AUDIO_VOLUME_NOTIFICATION_DATA) (s : Sys) :
  let s' := snd (_onVolumeCallback pNotify s) in
  (mgr s' = mgr s \/ mgr s' = set_exitCode 1 (mgr s)) /\
  w_subscribed (world s') = w_subscribed (world s) /\
  w_hr (world s') = w_hr (world s) /\
  w_endpoints (world s') = w_endpoints (world s).
Proof.
  destruct s as [m w]. cbv zeta. unfold_methods. simpl.
  destruct (m_bLinkActive m); [| simpl; auto].
  destruct (m_pMasterEndptVol m); [| simpl; auto].
  destruct (m_pSlaveEndptVol m) eqn:Hs; [| simpl; auto].
  link_cases m.
  all: simpl; rewrite ?Hs; simpl.
  all: link_cases m.
  all: simpl; auto.
Qed.


Lemma onVolumeCallback_frame_endpoints
  (pNotify : AUDIO_VOLUME_NOTIFICATION_DATA) (s : Sys) (h : IAudioEndpointVolume) :
  m_pSlaveEndptVol (mgr s) <> Some h ->
  let s' := snd (_onVolumeCallback pNotify s) in
  w_volume (world s') h = w_volume (world s) h /\
  w_mute (world s') h = w_mute (world s) h.
Proof.
  destruct s as [m w]. cbv zeta. unfold_methods. simpl. intro Hh.
  destruct (m_bLinkActive m); [| simpl; auto].
  destruct (m_pMasterEndptVol m); [| simpl; auto].
  destruct (m_pSlaveEndptVol m) as [hs|] eqn:Hs; [| simpl; auto].
  assert (Nat.eqb h hs = false) as Hneq
    by (apply Nat.eqb_neq; intros ->; apply Hh; reflexivity).
  link_cases m.
  all: simpl; rewrite ?Hs; simpl.
  all: link_cases m.
  all: simpl; unfold update; rewrite ?Hneq; auto.
Qed.

(** X7. A notification delivered through the callback object is answered
    with S_OK whatever the handler does, and a NULL one with E_INVALIDARG
    and nothing done.  No notification changes the link (flag, indices,
    handles), the catalog, the dialog or the GUID of the controller: the
    only member it can change is the exit code, which it can set to 1.  On
    the platform it leaves the subscriptions alone, and the volume and the
    mute state of every endpoint but the slave. *)
Theorem OnNotify_frame
  (pNotify : option AUDIO_VOLUME_NOTIFICATION_DATA) (s : Sys) :
  let o := registerCallback _onVolumeCallback AudioEndpointVolumeCallback_new in
  let s' := snd (OnNotify o pNotify s) in
  fst (OnNotify o pNotify s) =
    match pNotify with Some _ => S_OK | None => E_INVALIDARG end /\
  match pNotify with Some _ => True | None => s' = s end /\
  (mgr s' = mgr s \/ mgr s' = set_exitCode 1 (mgr s)) /\
  w_subscribed (world s') = w_subscribed (world s) /\
  (forall h : IAudioEndpointVolume,
      m_pSlaveEndptVol (mgr s) <> Some h ->
      w_volume (world s') h = w_volume (world s) h /\
      w_mute (world s') h = w_mute (world s) h).
Proof.
  cbv zeta. destruct pNotify as [n|];
    cbn [OnNotify registerCallback m_externalCallback fst snd].
  - destruct (onVolumeCallback_frame n s) as (Hm & Hsub & _).
    repeat split; try assumption.
    + apply (onVolumeCallback_frame_endpoints n s h); assumption.
    + apply (onVolumeCallback_frame_endpoints n s h); assumption.
  - repeat split; auto.
Qed.

Lemma OnNotify_frame_witness :
  w_volume (world (snd (OnNotify
     (registerCallback _onVolumeCallback AudioEndpointVolumeCallback_new)
     (Some notify_external) (sys_linked 500 world_ok)))) 0%nat = f_0_5.
Proof.
  destruct (OnNotify_frame (Some notify_external) (sys_linked 500 world_ok))
    as (_ & _ & _ & _ & H).
  destruct (H 0%nat) as (Hv & _).
  - simpl. discriminate.
  - exact Hv.
Defined.

(** X8. A notification that arrives after [unlinkDevices], or after a
    [linkDevices] that threw, is ignored: the handler makes no call and
    changes nothing, also when the failed link has left handles in the
    controller. *)
Theorem onVolumeCallback_ignored_when_not_linked
  (pNotify : AUDIO_VOLUME_NOTIFICATION_DATA) (s : Sys) :
  _onVolumeCallback pNotify (snd (unlinkDevices s)) = (Ok tt, snd (unlinkDevices s)) /\
  (forall masterIdx slaveIdx,
      is_Ok (fst (linkDevices masterIdx slaveIdx s)) = false ->
      _onVolumeCallback pNotify (snd (linkDevices masterIdx slaveIdx s)) =
        (Ok tt, snd (linkDevices masterIdx slaveIdx s))).
Proof.
  assert (H : forall s' : Sys, m_bLinkActive (mgr s') = false ->
                               _onVolumeCallback pNotify s' = (Ok tt, s')).
  { intros [m' w'] E. simpl in E. unfold_methods. simpl. rewrite E. reflexivity. }
  split.
  - apply H. destruct (unlinkDevices_ok s) as (_ & E & _). exact E.
  - intros masterIdx slaveIdx E. apply H.
    destruct (fst (linkDevices masterIdx slaveIdx s)) as [[]|what] eqn:El;
      [discriminate E |].
    destruct (linkDevices_failure_state masterIdx slaveIdx s El) as (F & _).
    exact F.
Qed.

Lemma onVolumeCallback_ignored_when_not_linked_witness :
  let s' := snd (linkDevices 1 0 (sys_fresh 500 (world_failing is_register))) in
  m_pSlaveEndptVol (mgr s') = Some 2%nat /\
  _onVolumeCallback notify_external s' = (Ok tt, s').
Proof.
  cbv zeta. split; [reflexivity |].
  destruct (onVolumeCallback_ignored_when_not_linked notify_external
              (sys_fresh 500 (world_failing is_register))) as (_ & H).
  apply H. reflexivity.
Defined.

(** X9. While the controller is Linked and the two writes to the slave
    succeed, a notification leaves the slave at the volume and the mute
    state it reports, every other endpoint as it was, and the controller
    unchanged, its exit code included. *)
Theorem onVolumeCallback_relay_success
  (pNotify : AUDIO_VOLUME_NOTIFICATION_DATA) (s : Sys) (hm hs : IAudioEndpointVolume) :
  Linked (mgr s) hm hs ->
  FAILED (w_hr (world s)
            (SetMasterVolumeLevelScalar hs (fMasterVolume pNotify)
               (m_processGUID (mgr s)))) = false ->
  FAILED (w_hr (world s)
            (SetMute hs (bMuted pNotify) (m_processGUID (mgr s)))) = false ->
  let s' := snd (_onVolumeCallback pNotify s) in
  fst (_onVolumeCallback pNotify s) = Ok tt /\
  mgr s' = mgr s /\
  w_volume (world s') hs = fMasterVolume pNotify /\
  w_mute (world s') hs = bMuted pNotify /\
  (forall h : IAudioEndpointVolume,
      h <> hs ->
      w_volume (world s') h = w_volume (world s) h /\
      w_mute (world s') h = w_mute (world s) h).
Proof.
  destruct s as [m w]. intros (Ha & Hm & Hs) F1 F2. simpl in *.
  unfold_methods. simpl. rewrite Ha, Hm, Hs. simpl.
  destruct (negb (guidEventContext pNotify =? m_processGUID m)); simpl;
    [destruct (m_hDialog m =? NULL); simpl |].
  all: rewrite ?Hs; simpl; rewrite ?F1; simpl; rewrite ?F2; simpl.
  all: unfold update; rewrite ?Nat.eqb_refl.
  all: repeat split; try reflexivity.
  all: intros; match goal with
               | Hne : _ <> _ |- _ =>
                   apply Nat.eqb_neq in Hne; rewrite Hne; reflexivity
               end.
Qed.

Lemma onVolumeCallback_relay_success_witness :
  let s' := snd (_onVolumeCallback notify_external (sys_linked 500 world_ok)) in
  w_volume (world s') 2%nat = f_0_42 /\ w_volume (world s') 0%nat = f_0_5 /\
  getExitCode (mgr s') = 0.
Proof.
  cbv zeta.
  destruct (onVolumeCallback_relay_success notify_external (sys_linked 500 world_ok)
              0%nat 2%nat) as (_ & Em & Hv & _ & Hother).
  - repeat split; reflexivity.
  - reflexivity.
  - reflexivity.
  - split; [exact Hv |]. split.
    + destruct (Hother 0%nat) as (H0 & _); [discriminate | exact H0].
    + rewrite Em. reflexivity.
Defined.

(** ** The link over the life of a controller *)

Lemma link_invariant_linkDevices (masterIdx slaveIdx : Z) (s : Sys) :
  link_invariant s -> link_invariant (snd (linkDevices masterIdx slaveIdx s)).
Proof.
  destruct s as [m w]. destruct m as [exitCode guid hDlg muteID sliderID count devices active mIdx sIdx pMaster pSlave].
  destruct w as [hr endpoints volume mute subscribed trace]. unfold link_invariant. simpl.
  destruct active.
  - intros (H1 & H2 & H3 & dm & ds & E1 & E2 & -> & -> & ->).
    unfold_methods. simpl.
    link_cases tt.
    all: simpl; rewrite ?Nat.eqb_refl; simpl.
    all: try (repeat split; reflexivity).
    all: repeat split; try lia.
    all: try (eexists; eexists; repeat split; try eassumption; reflexivity).
  - intros (-> & -> & ->).
    unfold_methods. simpl.
    link_cases tt.
    all: simpl; rewrite ?Nat.eqb_refl; simpl.
    all: try (repeat split; reflexivity).
    all: repeat split; try lia.
    all: try (eexists; eexists; repeat split; try eassumption; reflexivity).
Qed.

Lemma link_invariant_frame (s s' : Sys) :
  m_bLinkActive (mgr s') = m_bLinkActive (mgr s) ->
  m_iMasterDeviceIdx (mgr s') = m_iMasterDeviceIdx (mgr s) ->
  m_iSlaveDeviceIdx (mgr s') = m_iSlaveDeviceIdx (mgr s) ->
  m_audioDevices (mgr s') = m_audioDevices (mgr s) ->
  m_pMasterEndptVol (mgr s') = m_pMasterEndptVol (mgr s) ->
  m_pSlaveEndptVol (mgr s') = m_pSlaveEndptVol (mgr s) ->
  w_subscribed (world s') = w_subscribed (world s) ->
  link_invariant s -> link_invariant s'.
Proof.
  unfold link_invariant. intros -> -> -> -> -> -> ->. exact (fun H => H).
Qed.

Lemma setMasterVolume_mgr (fVolume : float) (s : Sys) :
  mgr (snd (setMasterVolume fVolume s)) = mgr s /\
  w_subscribed (world (snd (setMasterVolume fVolume s))) = w_subscribed (world s).
Proof.
  destruct s as [m w]. unfold_methods. simpl.
  destruct (m_pMasterEndptVol m); simpl; [| split; reflexivity].
  destruct (FAILED (w_hr w (SetMasterVolumeLevelScalar i fVolume (m_processGUID m))));
    split; reflexivity.
Qed.

Lemma setMasterMute_mgr (bMuted : BOOL) (s : Sys) :
  mgr (snd (setMasterMute bMuted s)) = mgr s /\
  w_subscribed (world (snd (setMasterMute bMuted s))) = w_subscribed (world s).
Proof.
  destruct s as [m w]. unfold_methods. simpl.
  destruct (m_pMasterEndptVol m); simpl; [| split; reflexivity].
  destruct (FAILED (w_hr w (SetMute i bMuted (m_processGUID m))));
    split; reflexivity.
Qed.

Lemma link_invariant_run_op (s : Sys) (o : Op) :
  link_invariant s -> link_invariant (run_op s o).
Proof.
  destruct o as [i j| |h a b|v|b|n|hr]; cbn [run_op].
  - apply link_invariant_linkDevices.
  - destruct s as [m w]. destruct m as [exitCode guid hDlg muteID sliderID count devices active mIdx sIdx pMaster pSlave].
  destruct w as [hr endpoints volume mute subscribed trace]. unfold link_invariant. simpl.
    destruct active.
    + intros (H1 & H2 & H3 & dm & ds & E1 & E2 & -> & -> & ->).
      unfold_methods. simpl. rewrite Nat.eqb_refl. simpl. repeat split; reflexivity.
    + intros (-> & -> & ->). unfold_methods. simpl. repeat split; reflexivity.
  - apply link_invariant_frame; reflexivity.
  - destruct (setMasterVolume_mgr v s) as (E & Hsub).
    apply link_invariant_frame; rewrite ?E; try reflexivity; exact Hsub.
  - destruct (setMasterMute_mgr b s) as (E & Hsub).
    apply link_invariant_frame; rewrite ?E; try reflexivity; exact Hsub.
  - destruct n as [n|]; [| exact (fun H => H)].
    cbn [OnNotify registerCallback m_externalCallback snd].
    destruct (onVolumeCallback_frame n s) as ([E | E] & Hsub & _).
    + apply link_invariant_frame; rewrite ?E; try reflexivity; exact Hsub.
    + apply link_invariant_frame; rewrite ?E; try reflexivity; exact Hsub.
  - apply link_invariant_frame; reflexivity.
Qed.

(** The invariant is kept by every sequence of operations. *)
Lemma link_invariant_run_ops (ops : list Op) (s : Sys) :
  link_invariant s -> link_invariant (run_ops ops s).
Proof.
  unfold run_ops. revert s.
  induction ops as [|o ops IH]; intros s H; simpl.
  - exact H.
  - apply IH. apply link_invariant_run_op. exact H.
Qed.

(** X10. From its construction on, whatever is done with a controller (links
    that succeed or fail, unlinks, volume and mute changes, notifications,
    the platform starting or ceasing to fail), the link is consistent: while
    the flag is up, the indices are two distinct catalog positions, the
    handles are those of the two devices there and the callback is
    registered on the master and nowhere else; while the flag is down, the
    indices are -1 and the callback is registered nowhere. *)
Theorem link_invariant_reachable
  (towlower : wchar_t -> wchar_t)
  (std_sort : (AudioDevice -> AudioDevice -> bool) -> list AudioDevice -> list AudioDevice)
  (processGUID : GUID) (w w' : World) (m : AudioDeviceManager) (ops : list Op) :
  w_subscribed w = [] ->
  AudioDeviceManager_new towlower std_sort processGUID w = (Ok m, w') ->
  link_invariant (run_ops ops {| mgr := m; world := w' |}).
Proof.
  intros Hsub E. apply link_invariant_run_ops.
  pose proof (AudioDeviceManager_new_spec towlower std_sort processGUID w) as H.
  cbv zeta in H. rewrite E in H. destruct H as (_ & -> & Hlog).
  destruct Hlog as (_ & _ & _ & _ & Hsub' & _).
  unfold link_invariant. simpl. rewrite Hsub', Hsub. repeat split; reflexivity.
Qed.

Lemma link_invariant_reachable_witness :
  let r := AudioDeviceManager_new towlower_C insertion_sort 7 world_ok in
  exists m : AudioDeviceManager,
    fst r = Ok m /\
    link_invariant
      (run_ops [OpSetDialog 500 1001 1002; OpLink 1 0; OpNotify (Some notify_external);
                OpPlatform (w_hr (world_failing is_register)); OpLink 0 2;
                OpSetMasterVolume f_0_42; OpUnlink]
         {| mgr := m; world := snd r |}).
Proof.
  cbv zeta.
  destruct (AudioDeviceManager_new towlower_C insertion_sort 7 world_ok)
    as [[m|what] w'] eqn:E; [| vm_compute in E; discriminate E].
  exists m. split; [reflexivity |].
  apply (link_invariant_reachable towlower_C insertion_sort 7 world_ok w' m _ eq_refl E).
Defined.

(** ** Destruction *)

(** X11. Destroying a controller, in whatever state its use has left it,
    never throws and leaves nothing behind: the callback is registered on
    no endpoint, the controller is Unlinked, and the callback object no
    longer forwards: every later notification is answered and changes
    nothing.  The only call made is the removal of the subscription, and
    only if the link was active. *)
Theorem AudioDeviceManager_delete_releases
  (m_endpointVolumeCallback : AudioEndpointVolumeCallback) (s : Sys) :
  link_invariant s ->
  let r := AudioDeviceManager_delete m_endpointVolumeCallback s in
  exists o : AudioEndpointVolumeCallback,
    fst r = Ok o /\
    w_subscribed (world (snd r)) = [] /\
    Unlinked (mgr (snd r)) /\
    new_calls (AudioDeviceManager_delete m_endpointVolumeCallback) s =
      match isLinkActive (mgr s), m_pMasterEndptVol (mgr s) with
      | true, Some h => [UnregisterControlChangeNotify h]
      | _, _ => []
      end /\
    forall (pNotify : AUDIO_VOLUME_NOTIFICATION_DATA) (s' : Sys),
      OnNotify o (Some pNotify) s' = (S_OK, s').
Proof.
  destruct s as [m w]. destruct m as [exitCode guid hDlg muteID sliderID count devices active mIdx sIdx pMaster pSlave].
  destruct w as [hr endpoints volume mute subscribed trace]. unfold link_invariant. cbv zeta.
  unfold AudioDeviceManager_delete, new_calls, new_events, Unlinked, isLinkActive.
  unfold_methods. simpl.
  destruct active.
  - intros (H1 & H2 & H3 & dm & ds & E1 & E2 & -> & -> & ->). simpl.
    rewrite Nat.eqb_refl. simpl. rewrite skipn_length_app.
    eexists. repeat split; reflexivity.
  - intros (-> & -> & ->). simpl.
    destruct pMaster; simpl; rewrite skipn_length_self;
      eexists; repeat split; reflexivity.
Qed.

Lemma AudioDeviceManager_delete_releases_witness :
  let r := AudioDeviceManager_delete
             (registerCallback _onVolumeCallback AudioEndpointVolumeCallback_new)
             (snd (linkDevices 1 0 (sys_fresh 500 world_ok))) in
  w_subscribed (world (snd (linkDevices 1 0 (sys_fresh 500 world_ok)))) = [0%nat] /\
  w_subscribed (world (snd r)) = [] /\ Unlinked (mgr (snd r)).
Proof.
  cbv zeta. split; [reflexivity |].
  destruct (AudioDeviceManager_delete_releases
              (registerCallback _onVolumeCallback AudioEndpointVolumeCallback_new)
              (snd (linkDevices 1 0 (sys_fresh 500 world_ok))))
    as (o & _ & Hsub & U & _).
  - vm_compute. repeat split; try discriminate.
    eexists. eexists. repeat split; reflexivity.
  - split; [exact Hsub | exact U].
Defined.

(** ** The dialog *)

(** X12. Whatever volume it is given, a NaN or an infinity included,
    [_updateDialog] posts nothing without a dialog, and with one exactly two
    messages to its controls: BM_SETCHECK with BST_CHECKED or BST_UNCHECKED,
    then TBM_SETPOS with a position from 0 to MAX_VOL.  It changes nothing
    else. *)
Theorem updateDialog_messages (fMasterVolume : float) (bMuted : BOOL) (s : Sys) :
  let m := mgr s in
  let s' := snd (_updateDialog fMasterVolume bMuted s) in
  mgr s' = m /\
  w_volume (world s') = w_volume (world s) /\ w_mute (world s') = w_mute (world s) /\
  w_subscribed (world s') = w_subscribed (world s) /\
  if m_hDialog m =? NULL
  then new_calls (_updateDialog fMasterVolume bMuted) s = []
  else exists check position,
      new_calls (_updateDialog fMasterVolume bMuted) s =
        [PostMessage (GetDlgItem (m_hDialog m) (int_of_ptrdiff (m_iMuteCheckboxID m)))
           BM_SETCHECK check 0;
         PostMessage (GetDlgItem (m_hDialog m) (int_of_ptrdiff (m_iVolumeSliderID m)))
           TBM_SETPOS TRUE position] /\
      (check = BST_CHECKED \/ check = BST_UNCHECKED) /\
      (bMuted = FALSE <-> check = BST_UNCHECKED) /\
      0 <= position <= MAX_VOL.
Proof.
  destruct s as [m w]. cbv zeta. unfold new_calls, new_events.
  unfold_methods. simpl.
  destruct (m_hDialog m =? NULL); simpl.
  - rewrite skipn_length_self. repeat split; reflexivity.
  - rewrite <- app_assoc. rewrite skipn_length_app. simpl.
    repeat split; try reflexivity.
    eexists. eexists. split; [reflexivity |].
    pose proof (sliderVolume_range fMasterVolume) as R.
    unfold MAX_VOL in *. unfold UINT32_of_ptrdiff.
    rewrite Z.mod_small by lia.
    unfold FALSE, BST_CHECKED, BST_UNCHECKED.
    destruct (bMuted =? 0) eqn:E;
      [apply Z.eqb_eq in E | apply Z.eqb_neq in E];
      repeat split; try lia; auto; intro; lia.
Qed.

(** ** The reference count of the callback object *)

Lemma LONG_wrap_small (z : Z) : - 2147483648 <= z < 2147483648 -> LONG_wrap z = z.
Proof.
  intro H. unfold LONG_wrap.
  change (2 ^ 31) with 2147483648. change (2 ^ 32) with 4294967296.
  rewrite Z.mod_small; lia.
Qed.

Lemma ULONG_of_LONG_small (z : Z) : 0 <= z < 4294967296 -> ULONG_of_LONG z = z.
Proof. intro H. unfold ULONG_of_LONG. apply Z.mod_small. exact H. Qed.

Lemma ref_step_count (o : AudioEndpointVolumeCallback) (op : RefOp) :
  0 < m_references o -> m_references o + ref_delta op < 2 ^ 31 ->
  ref_step (Some o) op =
    if m_references o + ref_delta op =? 0 then None
    else Some {| m_references := m_references o + ref_delta op;
                 m_externalCallback := m_externalCallback o |}.
Proof.
  intros Hpos Hmax. destruct o as [r cb].
  change (2 ^ 31) with 2147483648 in Hmax. cbn [m_references] in *.
  destruct op as [| |riid]; cbn [ref_step ref_delta snd] in *.
  - unfold AddRef. cbn [m_references m_externalCallback snd].
    rewrite LONG_wrap_small by lia.
    destruct (Z.eqb_spec (r + 1) 0); [lia | reflexivity].
  - unfold Release. cbn [m_references m_externalCallback snd].
    change (r + -1) with (r - 1) in *.
    rewrite LONG_wrap_small by lia.
    rewrite ULONG_of_LONG_small by lia.
    rewrite (Z.eqb_sym 0). reflexivity.
  - unfold QueryInterface, AddRef.
    destruct (IID_IUnknown =? riid); cbn [orb snd m_references m_externalCallback] in *.
    + rewrite LONG_wrap_small by lia.
      destruct (Z.eqb_spec (r + 1) 0); [lia | reflexivity].
    + destruct (IID_IAudioEndpointVolumeCallback =? riid);
        cbn [orb snd m_references m_externalCallback] in *.
      * rewrite LONG_wrap_small by lia.
        destruct (Z.eqb_spec (r + 1) 0); [lia | reflexivity].
      * rewrite Z.add_0_r. destruct (Z.eqb_spec r 0); [lia | reflexivity].
Qed.

(** X13. The callback object counts its references: as long as the count
    stays positive before each use and below 2^31, a sequence of AddRef,
    Release and QueryInterface calls leaves the count at its start value
    plus the references taken (AddRef, and QueryInterface for IUnknown or
    IAudioEndpointVolumeCallback) minus those released, and the registered
    callback untouched; the object deletes itself exactly if that number is
    0. *)
Theorem reference_count_balance
  (ops : list RefOp) (o : AudioEndpointVolumeCallback) :
  0 < m_references o ->
  (forall k : nat, (k < length ops)%nat ->
                   0 < m_references o + ref_total (firstn k ops)) ->
  (forall k : nat, (k <= length ops)%nat ->
                   m_references o + ref_total (firstn k ops) < 2 ^ 31) ->
  fold_left ref_step ops (Some o) =
    if m_references o + ref_total ops =? 0 then None
    else Some {| m_references := m_references o + ref_total ops;
                 m_externalCallback := m_externalCallback o |}.
Proof.
  revert o. induction ops as [|op ops IH]; intros o H0 Hpos Hmax.
  - simpl. rewrite Z.add_0_r.
    destruct (Z.eqb_spec (m_references o) 0); [lia |].
    destruct o; reflexivity.
  - cbn [fold_left].
    assert (H1 : m_references o + ref_delta op < 2 ^ 31).
    { specialize (Hmax 1%nat). simpl in Hmax. lia. }
    rewrite (ref_step_count o op H0 H1).
    destruct ops as [|op' ops].
    + simpl. rewrite Z.add_0_r. reflexivity.
    + assert (H2 : 0 < m_references o + ref_delta op).
      { specialize (Hpos 1%nat). simpl in Hpos. lia. }
      destruct (Z.eqb_spec (m_references o + ref_delta op) 0) as [E|E]; [lia |].
      rewrite IH.
      * cbn [m_references m_externalCallback].
        change (ref_total (op :: op' :: ops))
          with (ref_delta op + ref_total (op' :: ops)).
        rewrite Z.add_assoc. reflexivity.
      * exact H2.
      * intros k Hk. cbn [m_references].
        specialize (Hpos (S k)). cbn [firstn] in Hpos.
        change (ref_total (op :: firstn k (op' :: ops)))
          with (ref_delta op + ref_total (firstn k (op' :: ops))) in Hpos.
        simpl in Hk. simpl length in Hpos. lia.
      * intros k Hk. cbn [m_references].
        specialize (Hmax (S k)). cbn [firstn] in Hmax.
        change (ref_total (op :: firstn k (op' :: ops)))
          with (ref_delta op + ref_total (firstn k (op' :: ops))) in Hmax.
        simpl in Hk. simpl length in Hmax. lia.
Qed.

Lemma reference_count_balance_witness :
  fold_left ref_step
    [DoAddRef; DoQueryInterface IID_IUnknown; DoRelease; DoQueryInterface 5;
     DoRelease; DoRelease]
    (Some (registerCallback _onVolumeCallback AudioEndpointVolumeCallback_new)) = None.
Proof.
  rewrite reference_count_balance.
  - reflexivity.
  - reflexivity.
  - intros k Hk. simpl in Hk.
    do 6 (destruct k as [|k]; [vm_compute; reflexivity |]). lia.
  - intros k Hk. simpl in Hk.
    do 7 (destruct k as [|k]; [vm_compute; reflexivity |]). lia.
Defined.

(** ** The slider *)

(** X14. Moving the slider to a position sets a volume that, when the
    platform reports it back, puts the slider at the same position: for
    every position from 0 to MAX_VOL the rounding of [_updateDialog] undoes
    the division of the scroll handler, and a position outside is clamped
    first. *)
Theorem slider_round_trip (iVolume : Z) :
  sliderVolume (volume_of_slider iVolume) =
    if iVolume <? 0 then 0 else if iVolume >? MAX_VOL then MAX_VOL else iVolume.
Proof.
  assert (H : forallb (fun n => sliderVolume (volume_of_slider (Z.of_nat n)) =? Z.of_nat n)
                (seq 0 101) = true) by (vm_compute; reflexivity).
  rewrite forallb_forall in H.
  destruct (Z.ltb_spec iVolume 0) as [Hneg|Hpos].
  - unfold volume_of_slider. apply Z.ltb_lt in Hneg. rewrite Hneg.
    vm_compute. reflexivity.
  - destruct (iVolume >? MAX_VOL) eqn:Hbig.
    + unfold volume_of_slider. rewrite Hbig.
      apply Z.ltb_ge in Hpos. rewrite Hpos. vm_compute. reflexivity.
    + assert (Hle : iVolume <= 100) by (unfold MAX_VOL in Hbig; lia).
      specialize (H (Z.to_nat iVolume)).
      rewrite Z2Nat.id in H by lia.
      apply Z.eqb_eq. apply H. apply in_seq. lia.
Qed.

(** ** The saved selection *)

Lemma wstring_eqb_eq (a b : wstring) : wstring_eqb a b = true <-> a = b.
Proof.
  revert b. induction a as [|x a IH]; intros [|y b]; simpl;
    try (split; [discriminate | discriminate]).
  - split; reflexivity.
  - rewrite andb_true_iff, Z.eqb_eq, IH. split.
    + intros [-> ->]. reflexivity.
    + intro E. injection E as -> ->. split; reflexivity.
Qed.

(** The loop, one identifier at a time: the index is the start value, and
    then no device has the identifier, or the position of a device that
    has it. *)
Lemma select_saved_spec (l : list AudioDevice) (mid sid : wstring) :
  forall counter mi si : Z,
    let r := select_saved l mid sid counter mi si in
    ((fst r = mi /\ (mid = [] \/ forall d, In d l -> getId_ d <> mid)) \/
     (mid <> [] /\ exists (k : nat) (d : AudioDevice),
         fst r = counter + Z.of_nat k /\ nth_error l k = Some d /\ getId_ d = mid)) /\
    ((snd r = si /\ (sid = [] \/ forall d, In d l -> getId_ d <> sid)) \/
     (sid <> [] /\ exists (k : nat) (d : AudioDevice),
         snd r = counter + Z.of_nat k /\ nth_error l k = Some d /\ getId_ d = sid)).
Proof.
  assert (Hlen : forall id : wstring, (0 <? Z.of_nat (length id)) = false -> id = []).
  { intros [|x id] H; [reflexivity |]. simpl length in H.
    apply Z.ltb_ge in H. lia. }
  assert (Hne : forall id : wstring, (0 <? Z.of_nat (length id)) = true -> id <> []).
  { intros [|x id] H; [discriminate H | discriminate]. }
  induction l as [|device l IH]; intros counter mi si; cbv zeta.
  - simpl. split; left; (split; [reflexivity | right; intros d []]).
  - cbn [select_saved].
    set (mi' := if wstring_eqb (getId_ device) mid && (0 <? Z.of_nat (length mid))
                then counter else mi).
    set (si' := if wstring_eqb (getId_ device) sid && (0 <? Z.of_nat (length sid))
                then counter else si).
    specialize (IH (counter + 1) mi' si'). cbv zeta in IH.
    destruct IH as [IHm IHs].
    split.
    + destruct IHm as [[E Hno] | [Hid (k & d & E & Hk & Hd)]].
      * rewrite E. unfold mi'.
        destruct (wstring_eqb (getId_ device) mid) eqn:Eq; simpl.
        -- destruct (0 <? Z.of_nat (length mid)) eqn:El.
           ++ right. split; [apply Hne; exact El |].
              exists 0%nat, device. split; [simpl; lia |].
              split; [reflexivity | apply wstring_eqb_eq; exact Eq].
           ++ left. split; [reflexivity | left; apply Hlen; exact El].
        -- left. split; [reflexivity |].
           destruct Hno as [Hno | Hno]; [left; exact Hno | right].
           intros d [<- | Hin].
           ++ intro E'. apply wstring_eqb_eq in E'. congruence.
           ++ apply Hno. exact Hin.
      * right. split; [exact Hid |].
        exists (S k), d. split; [rewrite E; lia |]. split; [exact Hk | exact Hd].
    + destruct IHs as [[E Hno] | [Hid (k & d & E & Hk & Hd)]].
      * rewrite E. unfold si'.
        destruct (wstring_eqb (getId_ device) sid) eqn:Eq; simpl.
        -- destruct (0 <? Z.of_nat (length sid)) eqn:El.
           ++ right. split; [apply Hne; exact El |].
              exists 0%nat, device. split; [simpl; lia |].
              split; [reflexivity | apply wstring_eqb_eq; exact Eq].
           ++ left. split; [reflexivity | left; apply Hlen; exact El].
        -- left. split; [reflexivity |].
           destruct Hno as [Hno | Hno]; [left; exact Hno | right].
           intros d [<- | Hin].
           ++ intro E'. apply wstring_eqb_eq in E'. congruence.
           ++ apply Hno. exact Hin.
      * right. split; [exact Hid |].
        exists (S k), d. split; [rewrite E; lia |]. split; [exact Hk | exact Hd].
Qed.

Lemma getDevice_nth (s : Sys) (k : nat) (d : AudioDevice) :
  nth_error (getAudioDevices (mgr s)) k = Some d ->
  getDevice (Z.of_nat k) s = (Ok d, s).
Proof.
  intro H. unfold getDevice.
  destruct (Z.ltb_spec (Z.of_nat k) 0) as [Hneg|_]; [lia |].
  unfold bind, this, ret. rewrite Nat2Z.id.
  unfold getAudioDevices in H. rewrite H. reflexivity.
Qed.

(** X15. The index the dialog selects at start-up for a saved device
    identifier is -1 or a position at which [getDevice] returns a device
    with that identifier, and it is -1 only when the identifier is empty or
    no device of the catalog has it. *)
Theorem saved_selection_selected (s : Sys) (masterDeviceId slaveDeviceId : wstring) :
  selected s masterDeviceId (fst (saved_selection (mgr s) masterDeviceId slaveDeviceId)) /\
  selected s slaveDeviceId (snd (saved_selection (mgr s) masterDeviceId slaveDeviceId)).
Proof.
  unfold saved_selection, selected.
  destruct (select_saved_spec (getAudioDevices (mgr s)) masterDeviceId slaveDeviceId
              0 (-1) (-1)) as [Hm Hs].
  cbv zeta in Hm, Hs.
  split.
  - destruct Hm as [[E Hno] | [Hid (k & d & E & Hk & Hd)]].
    + left. split; assumption.
    + right. split; [exact Hid |]. exists d. rewrite E. simpl.
      rewrite (getDevice_nth s k d Hk). split; [reflexivity | exact Hd].
  - destruct Hs as [[E Hno] | [Hid (k & d & E & Hk & Hd)]].
    + left. split; assumption.
    + right. split; [exact Hid |]. exists d. rewrite E. simpl.
      rewrite (getDevice_nth s k d Hk). split; [reflexivity | exact Hd].
Qed.

(** X16. The dialog links at start-up only with two indices at which
    [getDevice] succeeds: when the saved identifiers have been looked up
    and the test for the automatic link passes, [linkDevices] cannot fail
    for a negative or an invalid device number. *)
Theorem auto_link_devices_exist
  (s : Sys) (linkActive g_optForceLink : bool) (masterDeviceId slaveDeviceId : wstring) :
  let sel := saved_selection (mgr s) masterDeviceId slaveDeviceId in
  auto_link linkActive g_optForceLink (fst sel) (snd sel) = true ->
  exists dm ds : AudioDevice,
    getDevice (fst sel) s = (Ok dm, s) /\ getId_ dm = masterDeviceId /\
    getDevice (snd sel) s = (Ok ds, s) /\ getId_ ds = slaveDeviceId.
Proof.
  cbv zeta. unfold auto_link, saved_selection.
  destruct (select_saved_spec (getAudioDevices (mgr s)) masterDeviceId slaveDeviceId
              0 (-1) (-1)) as [Hm Hs].
  cbv zeta in Hm, Hs.
  intro H. apply andb_prop in H. destruct H as [H H2].
  apply andb_prop in H. destruct H as [_ H1].
  apply Z.leb_le in H1. apply Z.leb_le in H2.
  destruct Hm as [[E _] | [_ (k & dm & E & Hk & Hd)]]; [lia |].
  destruct Hs as [[E' _] | [_ (k' & ds & E' & Hk' & Hd')]]; [lia |].
  exists dm, ds. rewrite E, E'. simpl.
  rewrite (getDevice_nth s k dm Hk), (getDevice_nth s k' ds Hk').
  repeat split; assumption.
Qed.

Lemma auto_link_devices_exist_witness :
  exists dm ds : AudioDevice,
    getDevice 1 (sys_fresh 500 world_ok) = (Ok dm, sys_fresh 500 world_ok) /\
    getId_ dm = L "{0}" /\
    getDevice 0 (sys_fresh 500 world_ok) = (Ok ds, sys_fresh 500 world_ok) /\
    getId_ ds = L "{2}".
Proof.
  apply (auto_link_devices_exist (sys_fresh 500 world_ok) true false (L "{0}") (L "{2}")).
  vm_compute. reflexivity.
Defined.

(** ** Saving and restoring *)

Lemma NoDup_map_nth_error (l : list AudioDevice) (i j : nat) (a b : AudioDevice) :
  NoDup (map getId_ l) ->
  nth_error l i = Some a -> nth_error l j = Some b -> getId_ a = getId_ b -> i = j.
Proof.
  intros Hnd Hi Hj E.
  apply (proj1 (NoDup_nth_error (map getId_ l)) Hnd).
  - rewrite length_map. apply nth_error_Some. congruence.
  - rewrite !nth_error_map, Hi, Hj. simpl. congruence.
Qed.

Lemma getDevice_cases (s : Sys) (idx : Z) :
  (in_catalog s idx = true /\ 0 <= idx /\
   exists d, nth_error (getAudioDevices (mgr s)) (Z.to_nat idx) = Some d /\
             fst (getDevice idx s) = Ok d) \/
  (in_catalog s idx = false /\ exists what, fst (getDevice idx s) = Throw what).
Proof.
  unfold in_catalog, getDevice, getAudioDevices.
  destruct (Z.ltb_spec idx 0) as [Hneg|Hpos].
  - right. destruct (Z.leb_spec 0 idx); [lia |]. simpl. split; [reflexivity |].
    eexists. reflexivity.
  - destruct (Z.leb_spec 0 idx); [| lia]. simpl.
    unfold bind, this, ret, throw. simpl.
    destruct (nth_error (m_audioDevices (mgr s)) (Z.to_nat idx)) as [d|] eqn:E.
    + left. assert (Z.to_nat idx < length (m_audioDevices (mgr s)))%nat
        by (apply nth_error_Some; congruence).
      destruct (Z.ltb_spec idx (Z.of_nat (length (m_audioDevices (mgr s))))); [| lia].
      split; [reflexivity |]. split; [assumption |]. exists d. split; reflexivity.
    + right. apply nth_error_None in E.
      destruct (Z.ltb_spec idx (Z.of_nat (length (m_audioDevices (mgr s))))); [lia |].
      split; [reflexivity |]. eexists. reflexivity.
Qed.

Lemma saved_selection_restores (s : Sys) (mid sid : wstring) (i j : Z) :
  NoDup (map getId_ (getAudioDevices (mgr s))) ->
  (forall d, In d (getAudioDevices (mgr s)) -> getId_ d <> []) ->
  (restored s i = -1 /\ mid = [] \/
   restored s i = i /\ 0 <= i /\
   exists d, nth_error (getAudioDevices (mgr s)) (Z.to_nat i) = Some d /\ getId_ d = mid) ->
  (restored s j = -1 /\ sid = [] \/
   restored s j = j /\ 0 <= j /\
   exists d, nth_error (getAudioDevices (mgr s)) (Z.to_nat j) = Some d /\ getId_ d = sid) ->
  saved_selection (mgr s) mid sid = (restored s i, restored s j).
Proof.
  intros Hnd Hids Hi Hj. unfold saved_selection.
  destruct (select_saved_spec (getAudioDevices (mgr s)) mid sid 0 (-1) (-1)) as [Hm Hs].
  cbv zeta in Hm, Hs.
  destruct (select_saved (getAudioDevices (mgr s)) mid sid 0 (-1) (-1)) as [a b].
  simpl in Hm, Hs. f_equal.
  - destruct Hi as [[Ei ->] | (Ei & Hi0 & d & Hd & <-)]; rewrite Ei.
    + destruct Hm as [[E _] | [Hid _]]; [exact E | contradiction].
    + destruct Hm as [[E [Hno | Hno]] | [_ (k & d' & E & Hk & Hd')]].
      * exfalso. apply (Hids d); [eapply nth_error_In; exact Hd | exact Hno].
      * exfalso. apply (Hno d); [eapply nth_error_In; exact Hd | reflexivity].
      * assert (k = Z.to_nat i)
          by (apply (NoDup_map_nth_error _ k (Z.to_nat i) d' d Hnd Hk Hd Hd')).
        lia.
  - destruct Hj as [[Ej ->] | (Ej & Hj0 & d & Hd & <-)]; rewrite Ej.
    + destruct Hs as [[E _] | [Hid _]]; [exact E | contradiction].
    + destruct Hs as [[E [Hno | Hno]] | [_ (k & d' & E & Hk & Hd')]].
      * exfalso. apply (Hids d); [eapply nth_error_In; exact Hd | exact Hno].
      * exfalso. apply (Hno d); [eapply nth_error_In; exact Hd | reflexivity].
      * assert (k = Z.to_nat j)
          by (apply (NoDup_map_nth_error _ k (Z.to_nat j) d' d Hnd Hk Hd Hd')).
        lia.
Qed.

(** X17. What [Dlg_SaveSettings] writes, the start-up of the dialog reads
    back: when the devices of the catalog have distinct, non-empty
    identifiers, looking up the two saved identifiers in the same catalog
    gives the two selections again, each position of the catalog as itself
    and every other selection as -1; and the link is saved as active only
    if it is active and both selections are positions of the catalog. *)
Theorem settings_round_trip (s : Sys) (masterIdx slaveIdx : Z) :
  NoDup (map getId_ (getAudioDevices (mgr s))) ->
  (forall d, In d (getAudioDevices (mgr s)) -> getId_ d <> []) ->
  let '(masterDeviceId, slaveDeviceId, linkActive) :=
    settings_to_save s masterIdx slaveIdx in
  saved_selection (mgr s) masterDeviceId slaveDeviceId =
    (restored s masterIdx, restored s slaveIdx) /\
  linkActive =
    if isLinkActive (mgr s) && in_catalog s masterIdx && in_catalog s slaveIdx
    then 1 else 0.
Proof.
  intros Hnd Hids. unfold settings_to_save.
  destruct (getDevice_cases s masterIdx)
    as [(Ei & Hi0 & dm & Hdm & Em) | (Ei & what & Em)];
  destruct (getDevice_cases s slaveIdx)
    as [(Ej & Hj0 & ds & Hds & Es) | (Ej & what' & Es)];
  rewrite Em, Es; rewrite Ei, Ej, ?andb_true_r, ?andb_false_r;
  (split; [| reflexivity]);
  apply saved_selection_restores; try assumption; unfold restored; rewrite ?Ei, ?Ej.
  - right. split; [reflexivity |]. split; [exact Hi0 |]. exists dm. split; [exact Hdm | reflexivity].
  - right. split; [reflexivity |]. split; [exact Hj0 |]. exists ds. split; [exact Hds | reflexivity].
  - right. split; [reflexivity |]. split; [exact Hi0 |]. exists dm. split; [exact Hdm | reflexivity].
  - left. split; reflexivity.
  - left. split; reflexivity.
  - right. split; [reflexivity |]. split; [exact Hj0 |]. exists ds. split; [exact Hds | reflexivity].
  - left. split; reflexivity.
  - left. split; reflexivity.
Qed.

Lemma settings_round_trip_witness :
  let s := snd (linkDevices 1 0 (sys_fresh 500 world_ok)) in
  settings_to_save s 1 0 = (L "{0}", L "{2}", 1) /\
  saved_selection (mgr s) (L "{0}") (L "{2}") = (1, 0).
Proof.
  cbv zeta. split; [vm_compute; reflexivity |].
  assert (Hnd : NoDup (map getId_ (getAudioDevices
                  (mgr (snd (linkDevices 1 0 (sys_fresh 500 world_ok))))))).
  { vm_compute. repeat constructor; simpl; intuition discriminate. }
  assert (Hids : forall d, In d (getAudioDevices
                  (mgr (snd (linkDevices 1 0 (sys_fresh 500 world_ok))))) ->
                getId_ d <> []).
  { vm_compute. intros d [<- | [<- | [<- | []]]]; discriminate. }
  pose proof (settings_round_trip (snd (linkDevices 1 0 (sys_fresh 500 world_ok))) 1 0
                Hnd Hids) as H.
  destruct (settings_to_save (snd (linkDevices 1 0 (sys_fresh 500 world_ok))) 1 0)
    as [[mid sid] la] eqn:E.
  vm_compute in E. injection E as <- <- <-.
  destruct H as [H _]. exact H.
Defined.

(** ** The command line *)

Lemma option_step_comm (towlower : wchar_t -> wchar_t) (opts : bool * bool)
  (a b : wstring) :
  option_step towlower (option_step towlower opts a) b =
  option_step towlower (option_step towlower opts b) a.
Proof.
  destruct opts as [m l]. unfold option_step.
  destruct (_wcsicmp towlower a (L "/m") =? 0),
           (_wcsicmp towlower a (L "/minimized") =? 0),
           (_wcsicmp towlower a (L "/minimize") =? 0),
           (_wcsicmp towlower a (L "/l") =? 0),
           (_wcsicmp towlower a (L "/link") =? 0),
           (_wcsicmp towlower b (L "/m") =? 0),
           (_wcsicmp towlower b (L "/minimized") =? 0),
           (_wcsicmp towlower b (L "/minimize") =? 0),
           (_wcsicmp towlower b (L "/l") =? 0),
           (_wcsicmp towlower b (L "/link") =? 0); reflexivity.
Qed.

Lemma option_step_idem (towlower : wchar_t -> wchar_t) (opts : bool * bool)
  (a : wstring) :
  option_step towlower (option_step towlower opts a) a = option_step towlower opts a.
Proof.
  destruct opts as [m l]. unfold option_step.
  destruct (_wcsicmp towlower a (L "/m") =? 0),
           (_wcsicmp towlower a (L "/minimized") =? 0),
           (_wcsicmp towlower a (L "/minimize") =? 0),
           (_wcsicmp towlower a (L "/l") =? 0),
           (_wcsicmp towlower a (L "/link") =? 0); reflexivity.
Qed.

Lemma fold_option_step_perm (towlower : wchar_t -> wchar_t) (args args' : list wstring) :
  Permutation args args' ->
  forall opts, fold_left (option_step towlower) args opts =
               fold_left (option_step towlower) args' opts.
Proof.
  induction 1 as [|a l l' _ IH|a b l|l l' l'' _ IH1 _ IH2]; intro opts; simpl.
  - reflexivity.
  - apply IH.
  - rewrite option_step_comm. reflexivity.
  - rewrite IH1. apply IH2.
Qed.

(** X18. The options read from the command line do not depend on the path
    of the executable, on the order of the arguments, or on how often an
    argument is given. *)
Theorem command_line_options_order
  (towlower : wchar_t -> wchar_t) (exe exe' arg : wstring) (args args' : list wstring) :
  Permutation args args' ->
  command_line_options towlower (exe :: args) =
    command_line_options towlower (exe' :: args') /\
  command_line_options towlower (exe :: arg :: arg :: args) =
    command_line_options towlower (exe :: arg :: args).
Proof.
  intro H. unfold command_line_options. cbn [tl]. split.
  - apply fold_option_step_perm. exact H.
  - cbn [fold_left]. rewrite option_step_idem. reflexivity.
Qed.

Lemma command_line_options_order_witness :
  command_line_options towlower_C [L "a.exe"; L "/LINK"; L "/x"; L "/M"] = (true, true) /\
  command_line_options towlower_C [L "b.exe"; L "/M"; L "/LINK"; L "/x"] = (true, true).
Proof.
  destruct (command_line_options_order towlower_C (L "a.exe") (L "b.exe") (L "/M")
              [L "/LINK"; L "/x"; L "/M"] [L "/M"; L "/LINK"; L "/x"]) as [H _].
  - apply Permutation_sym. apply (Permutation_cons_append [L "/LINK"; L "/x"] (L "/M")).
  - split; [vm_compute; reflexivity |].
    rewrite <- H. vm_compute. reflexivity.
Defined.

(** ** The exit code *)

Ltac trace_extended :=
  first [ exists []; rewrite app_nil_r; reflexivity
        | rewrite <- ?app_assoc; eexists; reflexivity ].

(** Every operation but a notification leaves the exit code alone, and
    every operation only adds to the trace. *)
Lemma linkDevices_exit_code (masterIdx slaveIdx : Z) (s : Sys) :
  let s' := snd (linkDevices masterIdx slaveIdx s) in
  m_exitCode (mgr s') = m_exitCode (mgr s) /\
  exists l, w_trace (world s') = w_trace (world s) ++ l.
Proof.
  destruct s as [m w].
  destruct m as [exitCode guid hDlg muteID sliderID count devices active mIdx sIdx pMaster pSlave].
  destruct w as [hr endpoints volume mute subscribed trace].
  cbv zeta. unfold_methods. simpl.
  destruct active, pMaster; simpl.
  all: link_cases tt.
  all: simpl; split; [reflexivity | trace_extended].
Qed.

Lemma onVolumeCallback_exit_code (pNotify : AUDIO_VOLUME_NOTIFICATION_DATA) (s : Sys) :
  let s' := snd (_onVolumeCallback pNotify s) in
  (m_exitCode (mgr s') = m_exitCode (mgr s) \/
   m_exitCode (mgr s') = 1 /\ exists hDlg, close_requested hDlg s') /\
  exists l, w_trace (world s') = w_trace (world s) ++ l.
Proof.
  destruct s as [m w]. cbv zeta. unfold close_requested. unfold_methods. simpl.
  destruct (m_bLinkActive m); [| simpl; split; [left; reflexivity | trace_extended]].
  destruct (m_pMasterEndptVol m); [| simpl; split; [left; reflexivity | trace_extended]].
  destruct (m_pSlaveEndptVol m) eqn:Hs;
    [| simpl; split; [left; reflexivity | trace_extended]].
  link_cases m.
  all: simpl; rewrite ?Hs; simpl.
  all: link_cases m.
  all: simpl; split; [| trace_extended].
  all: try (left; reflexivity).
  all: right; split; [reflexivity |]; exists (m_hDialog m);
    (split; [unfold NULL in *; lia |]);
    rewrite !map_app; simpl; rewrite !in_app_iff; simpl; auto.
Qed.

Lemma run_op_exit_code (s : Sys) (o : Op) :
  let s' := run_op s o in
  (m_exitCode (mgr s') = m_exitCode (mgr s) \/
   m_exitCode (mgr s') = 1 /\ exists hDlg, close_requested hDlg s') /\
  exists l, w_trace (world s') = w_trace (world s) ++ l.
Proof.
  destruct o as [i j| |h a b|v|b|n|hr]; cbn [run_op].
  - destruct (linkDevices_exit_code i j s) as (E & Ht). split; [left; exact E | exact Ht].
  - destruct s as [m w]. cbv zeta. unfold_methods. simpl.
    destruct (m_bLinkActive m), (m_pMasterEndptVol m); simpl;
      (split; [left; reflexivity | trace_extended]).
  - cbv zeta. simpl. split; [left; reflexivity | trace_extended].
  - destruct s as [m w]. cbv zeta. unfold_methods. simpl.
    destruct (m_pMasterEndptVol m); simpl;
      [| split; [left; reflexivity | trace_extended]].
    match goal with |- context [FAILED ?x] => destruct (FAILED x) end; simpl;
      (split; [left; reflexivity | trace_extended]).
  - destruct s as [m w]. cbv zeta. unfold_methods. simpl.
    destruct (m_pMasterEndptVol m); simpl;
      [| split; [left; reflexivity | trace_extended]].
    match goal with |- context [FAILED ?x] => destruct (FAILED x) end; simpl;
      (split; [left; reflexivity | trace_extended]).
  - destruct n as [n|]; cbn [OnNotify registerCallback m_externalCallback snd].
    + apply onVolumeCallback_exit_code.
    + split; [left; reflexivity | trace_extended].
  - cbv zeta. simpl. split; [left; reflexivity | trace_extended].
Qed.

(** X19. The exit code of a controller is 0 or 1 through all its life, and
    it is 1 only after the fatal error of a failed relay has been reported:
    the request to close has then been posted to the dialog that was
    attached.  No operation sets it back to 0: once it is 1, it is 1 after
    every further sequence of operations. *)
Theorem exit_code_reports (ops more : list Op) (s : Sys) :
  getExitCode (mgr s) = 0 ->
  (getExitCode (mgr (run_ops ops s)) = 0 \/
   getExitCode (mgr (run_ops ops s)) = 1 /\
   exists hDlg, close_requested hDlg (run_ops ops s)) /\
  (getExitCode (mgr (run_ops ops s)) = 1 ->
   getExitCode (mgr (run_ops (ops ++ more) s)) = 1).
Proof.
  unfold getExitCode. intro H0. split.
  - assert (J : m_exitCode (mgr s) = 0 \/
                m_exitCode (mgr s) = 1 /\ exists hDlg, close_requested hDlg s)
      by (left; exact H0).
    clear H0. revert s J. unfold run_ops.
    induction ops as [|o ops IH]; intros s J; simpl; [exact J |].
    apply IH.
    destruct (run_op_exit_code s o) as ([E | E] & l & Ht).
    + rewrite E. destruct J as [J | (J & hDlg & Hn & Hin)]; [left; exact J | right].
      split; [exact J |]. exists hDlg. split; [exact Hn |].
      rewrite Ht, map_app, in_app_iff. left. exact Hin.
    + right. exact E.
  - unfold run_ops. rewrite fold_left_app.
    generalize (fold_left run_op ops s). clear H0 s ops.
    induction more as [|o more IH]; intros s H1; simpl; [exact H1 |].
    apply IH.
    destruct (run_op_exit_code s o) as ([E | (E & _)] & _).
    + rewrite E. exact H1.
    + exact E.
Qed.

Lemma exit_code_reports_witness :
  let ops := [OpLink 1 0; OpPlatform (w_hr (world_failing is_set_volume));
              OpNotify (Some notify_external)] in
  let more := [OpSetDialog 0 0 0; OpUnlink; OpPlatform (w_hr world_ok); OpLink 1 0;
               OpNotify (Some notify_external)] in
  getExitCode (mgr (run_ops ops (sys_fresh 500 world_ok))) = 1 /\
  (exists hDlg, close_requested hDlg (run_ops ops (sys_fresh 500 world_ok))) /\
  getExitCode (mgr (run_ops (ops ++ more) (sys_fresh 500 world_ok))) = 1.
Proof.
  cbv zeta.
  destruct (exit_code_reports
              [OpLink 1 0; OpPlatform (w_hr (world_failing is_set_volume));
               OpNotify (Some notify_external)]
              [OpSetDialog 0 0 0; OpUnlink; OpPlatform (w_hr world_ok); OpLink 1 0;
               OpNotify (Some notify_external)]
              (sys_fresh 500 world_ok) eq_refl) as [[H | [H1 Hc]] Hmore].
  - vm_compute in H. discriminate H.
  - split; [exact H1 |]. split; [exact Hc |]. exact (Hmore H1).
Defined.
